(** * expo-audio: the three screens of the application, embedded in Rocq

    The application has three screens, each a React function component:
    - [src/app/index.tsx]   VoiceChatScreen: record a clip, list it, echo it;
    - [src/app/speech.tsx]  SpeechScreen: text-to-speech with pitch and rate;
    - [src/app/gemini.tsx]  GeminiScreen: one HTTP POST, then text-to-speech.

    A handler of a component is embedded as a computation over the
    component's React state and a log of the calls it makes on the host
    (Alert.alert, fetch, console.error, Speech.speak).  JavaScript strings are
    sequences of UTF-16 code units, numbers are IEEE 754 binary64 values
    ([spec_float] with precision 53), parsed JSON is an inductive type, and
    exceptions are an error result threaded by a small monad. *)

From Stdlib Require Import ZArith NArith List String Ascii Bool Lia SpecFloat.
From stdpp Require Import base list relations.
Import ListNotations.

Set Warnings "-register-all".

(* ===================================================================== *)
(** * The JavaScript values the screens handle *)
(* ===================================================================== *)

Module JS.

(** A JavaScript string: its UTF-16 code units. *)
Definition jsstring := list N.

(** ** String literals of the sources

    The source files are UTF-8 text; a literal denotes the UTF-16 encoding
    of its code points.  [utf16] computes it from the bytes of the literal
    as written here. *)

Definition cont (b : N) : N := N.land b 63.

Definition units_of_code_point (c : N) : jsstring :=
  if (c <? 65536)%N then [c]
  else let c' := (c - 65536)%N in
       [(55296 + N.shiftr c' 10)%N; (56320 + N.land c' 1023)%N].

Fixpoint utf16_of_bytes (bs : list N) : jsstring :=
  match bs with
  | [] => []
  | b0 :: r0 =>
    if (b0 <? 128)%N then b0 :: utf16_of_bytes r0
    else match r0 with
    | [] => []
    | b1 :: r1 =>
      if (b0 <? 224)%N then
        (N.shiftl (N.land b0 31) 6 + cont b1)%N :: utf16_of_bytes r1
      else match r1 with
      | [] => []
      | b2 :: r2 =>
        if (b0 <? 240)%N then
          (N.shiftl (N.land b0 15) 12 + N.shiftl (cont b1) 6 + cont b2)%N
            :: utf16_of_bytes r2
        else match r2 with
        | [] => []
        | b3 :: r3 =>
          units_of_code_point
            (N.shiftl (N.land b0 7) 18 + N.shiftl (cont b1) 12
             + N.shiftl (cont b2) 6 + cont b3)%N
            ++ utf16_of_bytes r3
        end
      end
    end
  end.

Definition utf16 (s : string) : jsstring :=
  utf16_of_bytes (map N_of_ascii (list_ascii_of_string s)).

(** ** String.prototype.trim

    [trim] removes the leading and trailing code units that are WhiteSpace
    or LineTerminator (ECMA-262, 22.1.3.32 with 12.2 and 12.3). *)

Definition isWhiteSpace (c : N) : bool :=
  (   (c =? 9) || (c =? 10) || (c =? 11) || (c =? 12) || (c =? 13)
   || (c =? 32) || (c =? 160) || (c =? 5760)
   || ((8192 <=? c) && (c <=? 8202))
   || (c =? 8232) || (c =? 8233) || (c =? 8239) || (c =? 8287)
   || (c =? 12288) || (c =? 65279))%N.

Fixpoint trimStart (s : jsstring) : jsstring :=
  match s with
  | [] => []
  | c :: r => if isWhiteSpace c then trimStart r else s
  end.

Definition trimEnd (s : jsstring) : jsstring := rev (trimStart (rev s)).

Definition trim (s : jsstring) : jsstring := trimEnd (trimStart s).

(** A string that is empty or holds white space only. *)
Definition blank (s : jsstring) : bool := forallb isWhiteSpace s.

(** ToBoolean on a string: only the empty string is falsy. *)
Definition string_truthy (s : jsstring) : bool :=
  match s with [] => false | _ => true end.

(** ** Number to string, for the non-negative integers the screens print
    (an HTTP status, a millisecond timestamp): decimal digits, most
    significant first. *)

Fixpoint digits_fuel (fuel : nat) (n : N) (acc : jsstring) : jsstring :=
  match fuel with
  | O => acc
  | S k =>
    let acc' := (48 + n mod 10)%N :: acc in
    if (n / 10 =? 0)%N then acc' else digits_fuel k (n / 10)%N acc'
  end.

Definition toString (n : N) : jsstring := digits_fuel (S (N.to_nat (N.log2 n))) n [].

(** ** Numbers: binary64 *)

Definition prec : Z := 53.
Definition emax : Z := 1024.

Definition number := spec_float.

(** The binary64 value [m * 2^e], rounded to nearest-even. *)
Definition lit (m e : Z) : number := binary_normalize prec emax m e false.

Definition add (x y : number) : number := SFadd prec emax x y.
Definition sub (x y : number) : number := SFsub prec emax x y.
Definition div (x y : number) : number := SFdiv prec emax x y.

Definition is_nan (x : number) : bool :=
  match x with S754_nan => true | _ => false end.

Definition is_neg_zero (x : number) : bool :=
  match x with S754_zero true => true | _ => false end.

(** Math.max and Math.min of two arguments (ECMA-262, 21.3.2.24/25): NaN if
    either is NaN, and -0 is smaller than +0. *)
Definition Math_max (x y : number) : number :=
  match SFcompare x y with
  | None => S754_nan
  | Some Lt => y
  | Some Gt => x
  | Some Eq => if is_neg_zero x then y else x
  end.

Definition Math_min (x y : number) : number :=
  match SFcompare x y with
  | None => S754_nan
  | Some Lt => x
  | Some Gt => y
  | Some Eq => if is_neg_zero y then y else x
  end.

(** [x <= y] on numbers (false when either is NaN). *)
Definition leb (x y : number) : bool := SFleb x y.

(** ToBoolean on a number: +0, -0 and NaN are falsy. *)
Definition number_truthy (x : number) : bool :=
  match x with
  | S754_zero _ | S754_nan => false
  | _ => true
  end.

(** ** Parsed JSON

    What [response.json()] resolves to.  An object is the list of its own
    properties (JSON.parse has already kept the last of equal names). *)

Inductive json : Type :=
| JNull
| JBool (b : bool)
| JNumber (x : number)
| JString (s : jsstring)
| JArray (elems : list json)
| JObject (members : list (jsstring * json)).

(** ToBoolean on a JSON value; [None] below stands for [undefined]. *)
Definition truthy (v : json) : bool :=
  match v with
  | JNull => false
  | JBool b => b
  | JNumber x => number_truthy x
  | JString s => string_truthy s
  | JArray _ | JObject _ => true
  end.

(** The property keys that the sources read from JSON data. *)
Inductive prop : Type :=
| p_candidates | p_content | p_parts | p_text | p_error | p_message
| p_0.

Definition prop_name (p : prop) : jsstring :=
  match p with
  | p_candidates => utf16 "candidates"
  | p_content => utf16 "content"
  | p_parts => utf16 "parts"
  | p_text => utf16 "text"
  | p_error => utf16 "error"
  | p_message => utf16 "message"
  | p_0 => utf16 "0"
  end.

Fixpoint lookup_member (k : jsstring) (members : list (jsstring * json)) : option json :=
  match members with
  | [] => None
  | (k', v) :: r => if bool_decide (k = k') then Some v else lookup_member k r
  end.

(** [v.p] or [v[0]] for a value [v] that is not null: an object answers with
    its own property, an array and a string answer index 0 with their first
    element, and none of the other keys exists on arrays, strings, numbers
    or booleans, nor on their prototypes. *)
Definition property (v : json) (p : prop) : option json :=
  match v with
  | JObject members => lookup_member (prop_name p) members
  | JArray elems =>
    match p with p_0 => head elems | _ => None end
  | JString s =>
    match p with p_0 => (fun c => JString [c]) <$> head s | _ => None end
  | JNull | JBool _ | JNumber _ => None
  end.

(** ** Exceptions *)

(** The TypeErrors the engine itself raises in these sources. *)
Inductive type_error : Type :=
| ReadOfNull (p : prop)          (* reading property p of null *)
| NoTrim                         (* v.trim() on a value v that is not a string *)
| CannotConvert.                 (* ToString of an object that has no usable toString *)

(** A piece of text shown or logged.  The characters of a string that the
    program builds are known; those that the engine chooses (the message of
    a TypeError it raises, its ToString of a number, array or object) are
    kept as what they are the text of. *)
Inductive text : Type :=
| Chars (s : jsstring)
| ToStringOf (v : json)
| TypeErrorText (k : type_error).

(** A thrown value: an instance of Error with its message, or any other
    value. *)
Inductive thrown : Type :=
| ErrorInstance (message : text)
| ThrownValue (v : json).

Definition TypeError (k : type_error) : thrown := ErrorInstance (TypeErrorText k).

Inductive result (A : Type) : Type :=
| Ok (a : A)
| Throw (e : thrown).
Arguments Ok {A} a.
Arguments Throw {A} e.

(** [v.p], which throws on null. *)
Definition member (v : json) (p : prop) : result (option json) :=
  match v with
  | JNull => Throw (TypeError (ReadOfNull p))
  | _ => Ok (property v p)
  end.

(** [o?.p] and [o?.[0]]: undefined when [o] is undefined or null. *)
Definition opt_member (o : option json) (p : prop) : option json :=
  match o with
  | None | Some JNull => None
  | Some v => property v p
  end.

(** [o || d]. *)
Definition or_else (o : option json) (d : json) : json :=
  match o with
  | Some v => if truthy v then v else d
  | None => d
  end.

(** ToString fails exactly on an object that has a member named toString
    (it hides Object.prototype.toString and, coming from JSON, is not
    callable), and on an array that joins such an element. *)
Fixpoint unprintable (v : json) : bool :=
  match v with
  | JObject members =>
    match lookup_member (utf16 "toString") members with
    | Some _ => true
    | None => false
    end
  | JArray elems => existsb unprintable elems
  | JNull | JBool _ | JNumber _ | JString _ => false
  end.

Definition ToString (v : json) : result text :=
  match v with
  | JString s => Ok (Chars s)
  | _ => if unprintable v then Throw (TypeError CannotConvert)
         else Ok (ToStringOf v)
  end.

(** [new Error(message)] for a message that is not undefined. *)
Definition new_Error (message : json) : result thrown :=
  match ToString message with
  | Ok t => Ok (ErrorInstance t)
  | Throw e => Throw e
  end.

(** ** More of the string and number methods the screens call *)

(** [s.padStart(maxLength, fillString)] (ECMA-262, 22.1.3.17): the fill is
    repeated and cut to the missing length; an empty fill adds nothing. *)
Fixpoint fill_chars (n : nat) (fillString rest : jsstring) : jsstring :=
  match n with
  | O => []
  | S k =>
    match rest with
    | c :: r => c :: fill_chars k fillString r
    | [] =>
      match fillString with
      | c :: r => c :: fill_chars k fillString r
      | [] => []
      end
    end
  end.

Definition padStart (maxLength : nat) (fillString s : jsstring) : jsstring :=
  if (maxLength <=? length s)%nat then s
  else fill_chars (maxLength - length s) fillString fillString ++ s.

(** [s.startsWith(searchString)] *)
Fixpoint startsWith (s searchString : jsstring) : bool :=
  match searchString with
  | [] => true
  | c :: r =>
    match s with
    | [] => false
    | d :: t => (c =? d)%N && startsWith t r
    end
  end.

(** [s.split(separator)[0]] for a separator of one code unit: the code
    units before its first occurrence, all of [s] when there is none. *)
Fixpoint split_0 (separator : N) (s : jsstring) : jsstring :=
  match s with
  | [] => []
  | c :: r => if (c =? separator)%N then [] else c :: split_0 separator r
  end.

(** [x.toFixed(f)] (ECMA-262, 21.1.3.3) for the number of magnitude
    [m * 2^e].  [nearest_scaled] is the integer n for which n / 10^f is
    nearest to it, the larger one of two; its digits get zeros in front up
    to f + 1 of them and the point before the last f.  From 10^21 on the
    method answers with ToString of the number instead. *)
Definition nearest_scaled (f : nat) (m : N) (e : Z) : N :=
  Z.to_N
    (let t := (Z.of_N m * 10 ^ Z.of_nat f)%Z in
     if (0 <=? e)%Z then (t * 2 ^ e)%Z
     else
       let d := (2 ^ (- e))%Z in
       if (d <=? 2 * (t mod d))%Z then (t / d + 1)%Z else (t / d)%Z).

Definition at_least_1e21 (m : N) (e : Z) : bool :=
  if (0 <=? e)%Z then (10 ^ 21 <=? Z.of_N m * 2 ^ e)%Z
  else (10 ^ 21 * 2 ^ (- e) <=? Z.of_N m)%Z.

Definition fixed_point (f : nat) (digits : jsstring) : jsstring :=
  match f with
  | O => digits
  | S _ =>
    let padded := padStart (S f) [48%N] digits in
    firstn (length padded - f) padded ++ [46%N] ++ skipn (length padded - f) padded
  end.

Definition fixed (f : nat) (m : N) (e : Z) : option jsstring :=
  if at_least_1e21 m e then None
  else Some (fixed_point f (toString (nearest_scaled f m e))).

Definition toFixed (f : nat) (x : number) : text :=
  match x with
  | S754_zero _ =>
    match fixed f 0 0 with
    | Some digits => Chars digits
    | None => ToStringOf (JNumber x)
    end
  | S754_finite negative m e =>
    match fixed f (Npos m) e with
    | Some digits => Chars ((if negative then [45%N] else []) ++ digits)
    | None => ToStringOf (JNumber x)
    end
  | S754_infinity _ | S754_nan => ToStringOf (JNumber x)
  end.

(** [toFixed] on a number that is the non-negative integer [n]; [None]
    where ToString of the number takes over. *)
Definition toFixed_integer (f : nat) (n : N) : option jsstring := fixed f n 0.

(** The number that a string of decimal digits writes. *)
Definition decimal (s : jsstring) : N :=
  fold_left (fun a c => (10 * a + (c - 48))%N) s 0%N.

End JS.

(* ===================================================================== *)
(** * The host: what the handlers call, and how they run *)
(* ===================================================================== *)

Module Host.
Import JS.

(** The second argument of [fetch], as the source fills it in; [body] is the
    value handed to JSON.stringify. *)
Record request_init : Type := {
  method : jsstring;
  headers : list (jsstring * jsstring);
  body : json
}.

(** What the source reads of a Response: [ok], [status], and what
    [json()] settles to. *)
Record response : Type := {
  ok : bool;
  status : N;
  json_body : result json
}.

(** The network as [fetch] sees it: for a request, the promise rejects or
    resolves to a response. *)
Definition network := jsstring -> request_init -> result response.

(** The options of [Speech.speak] that are data. *)
Record speak_options : Type := {
  language : jsstring;
  pitch : number;
  rate : number;
  voice : option jsstring
}.

(** The one callback the application hands to [setTimeout]: the closure of
    handleRecord, with the clip and the duration it has captured. *)
Inductive timeout_callback : Type :=
| appendBotMessage (uri : jsstring) (duration : N).

(** The calls a handler makes on the host, in the order it makes them. *)
Inductive call : Type :=
| Alert_alert (title : jsstring) (message : text)
| fetch (url : jsstring) (init : request_init)
| console_error (label : jsstring) (e : thrown)
| Speech_speak (utterance : jsstring) (options : speak_options)
| Speech_stop
| Speech_pause
| Speech_resume
| audioRecorder_stop
| audioRecorder_prepareToRecordAsync
| audioRecorder_record
| setTimeout (callback : timeout_callback) (ms : N)
| player_pause
| player_seekTo (seconds : N)
| player_play.

Definition is_fetch (c : call) : bool :=
  match c with fetch _ _ => true | _ => false end.

Definition is_alert (c : call) : bool :=
  match c with Alert_alert _ _ => true | _ => false end.

Definition is_speak (c : call) : bool :=
  match c with Speech_speak _ _ => true | _ => false end.

(** [setInterval(callback, ms)]: the callback runs every [ms] milliseconds,
    so it has run [elapsed / ms] times when [elapsed] milliseconds have
    passed. *)
Record interval (C : Type) : Type := setInterval { callback : C; ms : N }.
Arguments setInterval {C} callback ms.
Arguments callback {C} i.
Arguments ms {C} i.

Definition runs_within {C} (i : interval C) (elapsed : N) : N := (elapsed / ms i)%N.

(** ** Handlers as computations

    A handler runs on the React state [S] of its component.  What it does
    is recorded in order: the calls it makes on the host and the states it
    sets.  It finishes normally or by a throw. *)

Section Run.
Context {S : Type}.

Inductive event : Type :=
| Call (c : call)
| Update (next : S).

Record world : Type := World { react_state : S; trace : list event }.

(** The host calls of a run, in order. *)
Definition calls (w : world) : list call :=
  flat_map (fun e => match e with Call c => [c] | Update _ => [] end) (trace w).

Definition M (A : Type) : Type := world -> result A * world.

Definition ret {A} (a : A) : M A := fun w => (Ok a, w).

Definition bind {A B} (m : M A) (k : A -> M B) : M B :=
  fun w =>
    match m w with
    | (Ok a, w') => k a w'
    | (Throw e, w') => (Throw e, w')
    end.

Definition throw {A} (e : thrown) : M A := fun w => (Throw e, w).

(** An awaited promise, or an operation that may throw. *)
Definition settle {A} (r : result A) : M A := fun w => (r, w).

Definition read : M S := fun w => (Ok (react_state w), w).

(** A state setter [setX(v)]. *)
Definition set (f : S -> S) : M unit :=
  fun w =>
    let next := f (react_state w) in
    (Ok tt, World next (trace w ++ [Update next])).

Definition host (c : call) : M unit :=
  fun w => (Ok tt, World (react_state w) (trace w ++ [Call c])).

(** [try { body } catch (error) { handler error }]. *)
Definition try_catch {A} (body : M A) (handler : thrown -> M A) : M A :=
  fun w =>
    match body w with
    | (Ok a, w') => (Ok a, w')
    | (Throw e, w') => handler e w'
    end.

(** [try { body } finally { final }], for a [final] that completes
    normally or throws. *)
Definition try_finally {A} (body : M A) (final : M unit) : M A :=
  fun w =>
    match body w with
    | (r, w') =>
      match final w' with
      | (Ok _, w'') => (r, w'')
      | (Throw e, w'') => (Throw e, w'')
      end
    end.

(** [promise.catch(handler)]. *)
Definition promise_catch {A} (p : result A) (handler : thrown -> A) : A :=
  match p with
  | Ok a => a
  | Throw e => handler e
  end.

Definition run {A} (m : M A) (s : S) : result A * world := m (World s []).

End Run.
Arguments event : clear implicits.
Arguments world : clear implicits.
Arguments M : clear implicits.

Declare Scope handler_scope.
Delimit Scope handler_scope with handler.
Notation "x <- m ;; k" := (bind m (fun x => k))
  (at level 100, m at next level, right associativity) : handler_scope.
Notation "m ;; k" := (bind m (fun _ => k))
  (at level 100, right associativity) : handler_scope.

End Host.

(* ===================================================================== *)
(** * src/app/gemini.tsx *)
(* ===================================================================== *)

Module Gemini.
Import JS Host.
Local Open Scope handler_scope.

Definition GEMINI_MODEL : jsstring := utf16 "gemini-2.5-flash".
Definition GEMINI_API_URL : jsstring :=
  utf16 "https://generativelanguage.googleapis.com/v1beta/models/"
  ++ GEMINI_MODEL ++ utf16 ":generateContent".

(** The state of GeminiScreen.  [generatedText] is declared a string, and
    receives whatever the response holds at the text field. *)
Record state : Type := {
  prompt : jsstring;
  apiKey : jsstring;
  generatedText : json;
  isGenerating : bool;
  isSpeaking : bool
}.

Definition initial : state := {|
  prompt := utf16 "AIについて簡単に説明してください";
  apiKey := [];
  generatedText := JString [];
  isGenerating := false;
  isSpeaking := false
|}.

Definition setGeneratedText (v : json) (s : state) : state :=
  {| prompt := prompt s; apiKey := apiKey s; generatedText := v;
     isGenerating := isGenerating s; isSpeaking := isSpeaking s |}.

Definition setIsGenerating (b : bool) (s : state) : state :=
  {| prompt := prompt s; apiKey := apiKey s; generatedText := generatedText s;
     isGenerating := b; isSpeaking := isSpeaking s |}.

Definition setIsSpeaking (b : bool) (s : state) : state :=
  {| prompt := prompt s; apiKey := apiKey s; generatedText := generatedText s;
     isGenerating := isGenerating s; isSpeaking := b |}.

(** The polling of the speech engine. *)
Definition checkSpeaking (polled : result bool) : M state unit :=
  speaking <- settle polled ;;
  set (setIsSpeaking speaking).

Definition speaking_effect : interval (result bool -> M state unit) :=
  setInterval checkSpeaking 500.

Definition Error_title : jsstring := utf16 "エラー".
Definition no_prompt : jsstring := utf16 "プロンプトを入力してください".
Definition no_key : jsstring := utf16 "Gemini APIキーを入力してください".
Definition fallback : jsstring := utf16 "テキストを生成できませんでした".
Definition unknown_error : jsstring := utf16 "不明なエラーが発生しました".
Definition nothing_to_speak : jsstring := utf16 "読み上げるテキストがありません".

(** [`APIエラー: ${status}`] *)
Definition api_error (status : N) : jsstring :=
  utf16 "APIエラー: " ++ toString status.

Definition request (s : state) : request_init := {|
  method := utf16 "POST";
  headers := [ (utf16 "Content-Type", utf16 "application/json");
               (utf16 "x-goog-api-key", apiKey s) ];
  body :=
    JObject [ (utf16 "contents",
      JArray [ JObject [ (utf16 "parts",
        JArray [ JObject [ (utf16 "text", JString (prompt s)) ] ]) ] ]) ]
|}.

(** [data.candidates?.[0]?.content?.parts?.[0]?.text] *)
Definition text_of (data : json) : result (option json) :=
  match member data p_candidates with
  | Ok candidates =>
    Ok (opt_member (opt_member (opt_member (opt_member
          (opt_member candidates p_0) p_content) p_parts) p_0) p_text)
  | Throw e => Throw e
  end.

(** [errorData.error?.message] *)
Definition message_of (errorData : json) : result (option json) :=
  match member errorData p_error with
  | Ok error => Ok (opt_member error p_message)
  | Throw e => Throw e
  end.

(** [error instanceof Error ? error.message : "不明なエラーが発生しました"] *)
Definition errorMessage (error : thrown) : text :=
  match error with
  | ErrorInstance message => message
  | ThrownValue _ => Chars unknown_error
  end.

Definition handleGenerate (net : network) : M state unit :=
  s <- read ;;
  if negb (string_truthy (trim (prompt s))) then
    host (Alert_alert Error_title (Chars no_prompt))
  else if negb (string_truthy (trim (apiKey s))) then
    host (Alert_alert Error_title (Chars no_key))
  else
    set (setIsGenerating true) ;;
    set (setGeneratedText (JString [])) ;;
    try_finally
      (try_catch
         (host (fetch GEMINI_API_URL (request s)) ;;
          response <- settle (net GEMINI_API_URL (request s)) ;;
          if negb (ok response) then
            let errorData :=
              promise_catch (json_body response) (fun _ => JObject []) in
            message <- settle (message_of errorData) ;;
            error <- settle (new_Error
                       (or_else message (JString (api_error (status response))))) ;;
            throw error
          else
            data <- settle (json_body response) ;;
            found <- settle (text_of data) ;;
            let text := or_else found (JString fallback) in
            set (setGeneratedText text))
         (fun error =>
            host (Alert_alert Error_title (errorMessage error)) ;;
            host (console_error (utf16 "Gemini API error:") error)))
      (set (setIsGenerating false)).

(** [generatedText.trim()] is a TypeError when the state holds a value that
    is not a string. *)
Definition handleSpeak : M state unit :=
  s <- read ;;
  match generatedText s with
  | JString generated =>
    if negb (string_truthy (trim generated)) then
      host (Alert_alert Error_title (Chars nothing_to_speak))
    else
      host (Speech_speak generated
              {| language := utf16 "ja-JP"; pitch := lit 1 0; rate := lit 1 0;
                 voice := None |})
  | _ => throw (TypeError NoTrim)
  end.

(** The callbacks given to [Speech.speak]. *)
Definition onStart : M state unit := set (setIsSpeaking true).
Definition onDone : M state unit := set (setIsSpeaking false).
Definition onError (message : jsstring) : M state unit :=
  host (Alert_alert Error_title (Chars (utf16 "音声合成エラー: " ++ message))) ;;
  set (setIsSpeaking false).

Definition handleStop : M state unit :=
  host Speech_stop ;;
  set (setIsSpeaking false).

Definition handleClear : M state unit :=
  set (setGeneratedText (JString [])) ;;
  host Speech_stop.

(** ** The response body as the specification reads it

    The field [candidates[0].content.parts[0].text] as a path in the JSON
    document: a name selects a member of an object, an index an element of
    an array, and the field is absent when a step has nothing to select. *)
Definition json_member (k : jsstring) (v : json) : option json :=
  match v with
  | JObject members => lookup_member k members
  | _ => None
  end.

Definition json_element (i : nat) (v : json) : option json :=
  match v with
  | JArray elems => nth_error elems i
  | _ => None
  end.

Definition spec_text_field (body : json) : option json :=
  candidates ← json_member (utf16 "candidates") body;
  candidate ← json_element 0 candidates;
  content ← json_member (utf16 "content") candidate;
  parts ← json_member (utf16 "parts") content;
  part ← json_element 0 parts;
  json_member (utf16 "text") part.

(** The text that is displayed after a successful response, as the
    specification states it: the field, or the fallback when it is absent. *)
Definition spec_displayed (r : response) : json :=
  match json_body r with
  | Ok body =>
    match spec_text_field body with
    | Some v => v
    | None => JString fallback
    end
  | Throw _ => JString fallback
  end.

End Gemini.

(* ===================================================================== *)
(** * src/app/speech.tsx *)
(* ===================================================================== *)

Module Speech.
Import JS Host.
Local Open Scope handler_scope.

Record Voice : Type := {
  identifier : jsstring;
  name : jsstring;
  voice_language : jsstring;
  quality : option jsstring
}.

Record state : Type := {
  text : jsstring;
  isSpeaking : bool;
  availableVoices : list Voice;
  selectedVoice : option jsstring;
  language : jsstring;
  pitch : number;
  rate : number
}.

(** The number literals of the screen.  [0.1] is the binary64 nearest to
    one tenth, which is what the correctly rounded quotient 1/10 is. *)
Definition n0_1 : number := div (lit 1 0) (lit 10 0).
Definition n0_5 : number := lit 1 (-1).
Definition n1_0 : number := lit 1 0.
Definition n2_0 : number := lit 2 0.

Definition initial : state := {|
  text := utf16 "こんにちは、これは音声合成のテストです。";
  isSpeaking := false;
  availableVoices := [];
  selectedVoice := None;
  language := utf16 "ja-JP";
  pitch := n1_0;
  rate := n1_0
|}.

Definition setIsSpeaking (b : bool) (s : state) : state :=
  {| text := text s; isSpeaking := b; availableVoices := availableVoices s;
     selectedVoice := selectedVoice s; language := language s;
     pitch := pitch s; rate := rate s |}.

Definition setPitch (x : number) (s : state) : state :=
  {| text := text s; isSpeaking := isSpeaking s;
     availableVoices := availableVoices s; selectedVoice := selectedVoice s;
     language := language s; pitch := x; rate := rate s |}.

Definition setRate (x : number) (s : state) : state :=
  {| text := text s; isSpeaking := isSpeaking s;
     availableVoices := availableVoices s; selectedVoice := selectedVoice s;
     language := language s; pitch := pitch s; rate := x |}.

(** The polling of the speech engine. *)
Definition checkSpeaking (polled : result bool) : M state unit :=
  speaking <- settle polled ;;
  set (setIsSpeaking speaking).

Definition speaking_effect : interval (result bool -> M state unit) :=
  setInterval checkSpeaking 500.

Definition Error_title : jsstring := utf16 "エラー".
Definition no_text : jsstring := utf16 "テキストを入力してください".

Definition handleSpeak : M state unit :=
  s <- read ;;
  if negb (string_truthy (trim (text s))) then
    host (Alert_alert Error_title (Chars no_text))
  else
    host (Speech_speak (text s)
            {| Host.language := language s; Host.pitch := pitch s;
               Host.rate := rate s; voice := selectedVoice s |}).

Definition onStart : M state unit := set (setIsSpeaking true).
Definition onDone : M state unit := set (setIsSpeaking false).
Definition onError (message : jsstring) : M state unit :=
  host (Alert_alert Error_title (Chars (utf16 "音声合成エラー: " ++ message))) ;;
  set (setIsSpeaking false).

Definition handleStop : M state unit :=
  host Speech_stop ;;
  set (setIsSpeaking false).

(** [Platform.OS === "ios"] is the argument [ios]. *)
Definition handlePause (ios : bool) : M state unit :=
  if ios then host Speech_pause ;; set (setIsSpeaking false) else ret tt.

Definition handleResume (ios : bool) : M state unit :=
  if ios then host Speech_resume ;; set (setIsSpeaking true) else ret tt.

(** The four buttons of the settings row, in the order of the source:
    pitch -, pitch +, rate -, rate +. *)
Inductive button : Type :=
| pitch_minus | pitch_plus | rate_minus | rate_plus.

Definition decrement (x : number) : number := Math_max n0_5 (sub x n0_1).
Definition increment (x : number) : number := Math_min n2_0 (add x n0_1).

Definition onPress (b : button) : M state unit :=
  s <- read ;;
  match b with
  | pitch_minus => set (setPitch (decrement (pitch s)))
  | pitch_plus => set (setPitch (increment (pitch s)))
  | rate_minus => set (setRate (decrement (rate s)))
  | rate_plus => set (setRate (increment (rate s)))
  end.

(** The state after a sequence of presses. *)
Definition press (s : state) (b : button) : state :=
  react_state (snd (run (onPress b) s)).

Definition presses (bs : list button) (s : state) : state :=
  fold_left press bs s.

(** The numbers that pitch and rate take: those reached from 1.0 by
    [decrement] and [increment], collected breadth first. *)
Definition number_eqb (x y : number) : bool :=
  match x, y with
  | S754_zero a, S754_zero b => Bool.eqb a b
  | S754_infinity a, S754_infinity b => Bool.eqb a b
  | S754_nan, S754_nan => true
  | S754_finite a m e, S754_finite b n f =>
    Bool.eqb a b && Pos.eqb m n && Z.eqb e f
  | _, _ => false
  end.

Definition known (x : number) (seen : list number) : bool :=
  existsb (number_eqb x) seen.

Fixpoint explore (fuel : nat) (todo seen : list number) : list number :=
  match fuel with
  | O => seen
  | S k =>
    match todo with
    | [] => seen
    | x :: rest =>
      let d := decrement x in
      let seen1 := if known d seen then seen else seen ++ [d] in
      let todo1 := if known d seen then rest else rest ++ [d] in
      let i := increment x in
      let seen2 := if known i seen1 then seen1 else seen1 ++ [i] in
      let todo2 := if known i seen1 then todo1 else todo1 ++ [i] in
      explore k todo2 seen2
    end
  end.

Definition settings : list number := explore 200 [n1_0] [n1_0].

Definition in_range (x : number) : bool := leb n0_5 x && leb x n2_0.

(** Both values of a state are among the settings. *)
Definition settled (s : state) : Prop :=
  In (pitch s) settings /\ In (rate s) settings.

(** ** The voices *)

Definition setAvailableVoices (voices : list Voice) (s : state) : state :=
  {| text := text s; isSpeaking := isSpeaking s; availableVoices := voices;
     selectedVoice := selectedVoice s; language := language s;
     pitch := pitch s; rate := rate s |}.

Definition setSelectedVoice (v : option jsstring) (s : state) : state :=
  {| text := text s; isSpeaking := isSpeaking s;
     availableVoices := availableVoices s; selectedVoice := v;
     language := language s; pitch := pitch s; rate := rate s |}.

Definition setLanguage (l : jsstring) (s : state) : state :=
  {| text := text s; isSpeaking := isSpeaking s;
     availableVoices := availableVoices s; selectedVoice := selectedVoice s;
     language := l; pitch := pitch s; rate := rate s |}.

(** [(v) => v.language.startsWith("ja") || v.language === "ja-JP"] *)
Definition isJapanese (v : Voice) : bool :=
  startsWith (voice_language v) (utf16 "ja")
  || bool_decide (voice_language v = utf16 "ja-JP").

(** The effect that loads the voices; [available] is how the promise of
    [Speech.getAvailableVoicesAsync()] settles. *)
Definition loadVoices (available : result (list Voice)) : M state unit :=
  try_catch
    (voices <- settle available ;;
     set (setAvailableVoices voices) ;;
     match List.find isJapanese voices with
     | Some japaneseVoice =>
       set (setSelectedVoice (Some (identifier japaneseVoice)))
     | None => ret tt
     end)
    (fun error => host (console_error (utf16 "Error loading voices:") error)).

(** The voices that the list of the screen shows:
    [availableVoices.filter(...).slice(0, 10)], and no list at all when
    there are no voices. *)
Definition listed (s : state) (v : Voice) : bool :=
  startsWith (voice_language v) (split_0 45 (language s)).

Definition shownVoices (s : state) : list Voice :=
  match availableVoices s with
  | [] => []
  | _ => firstn 10 (List.filter (listed s) (availableVoices s))
  end.

(** A press on a voice of the list. *)
Definition selectVoice (v : Voice) : M state unit :=
  set (setSelectedVoice (Some (identifier v))).

(** ** The labels of pitch and rate: [pitch.toFixed(1)], [rate.toFixed(1)] *)
Definition pitchLabel (s : state) : JS.text := toFixed 1 (pitch s).
Definition rateLabel (s : state) : JS.text := toFixed 1 (rate s).

(** Pitch and rate counted in exact tenths, for comparison: a minus button
    takes one tenth down to 5 at the least, a plus button one tenth up to
    20 at the most, from 10. *)
Definition press_tenths (t : Z * Z) (b : button) : Z * Z :=
  match b with
  | pitch_minus => (Z.max 5 (fst t - 1), snd t)
  | pitch_plus => (Z.min 20 (fst t + 1), snd t)
  | rate_minus => (fst t, Z.max 5 (snd t - 1))
  | rate_plus => (fst t, Z.min 20 (snd t + 1))
  end.

Definition tenths_after (bs : list button) : Z * Z :=
  fold_left press_tenths bs (10, 10)%Z.

(** How a number of tenths is written with one decimal. *)
Definition tenths_label (t : Z) : jsstring :=
  toString (Z.to_N (t / 10)) ++ [46%N] ++ toString (Z.to_N (t mod 10)).

(** The tenths that [toFixed(1)] writes for a setting, and the check that
    a setting is written as its tenths and that the buttons move it by one
    tenth within 5 and 20. *)
Definition tenths_of (x : number) : Z :=
  match x with
  | S754_finite false m e => Z.of_N (nearest_scaled 1 (Npos m) e)
  | _ => 0%Z
  end.

Definition tracks_tenths (x : number) : bool :=
  match toFixed 1 x with
  | Chars label => bool_decide (label = tenths_label (tenths_of x))
  | _ => false
  end
  && (tenths_of (decrement x) =? Z.max 5 (tenths_of x - 1))%Z
  && (tenths_of (increment x) =? Z.min 20 (tenths_of x + 1))%Z.

End Speech.

(* ===================================================================== *)
(** * src/app/index.tsx *)
(* ===================================================================== *)

Module VoiceChat.
Import JS Host.
Local Open Scope handler_scope.

Inductive sender : Type := user | bot.

Record VoiceMessage : Type := {
  id : jsstring;
  uri : jsstring;
  from : sender;
  durationSec : N
}.

Record state : Type := {
  messages : list VoiceMessage;
  recordingTime : N
}.

Definition initial : state := {| messages := []; recordingTime := 0 |}.

(** [setMessages(update)] with a function of the previous list. *)
Definition setMessages (update : list VoiceMessage -> list VoiceMessage)
    (s : state) : state :=
  {| messages := update (messages s); recordingTime := recordingTime s |}.

Definition setRecordingTime (update : N -> N) (s : state) : state :=
  {| messages := messages s; recordingTime := update (recordingTime s) |}.

(** What the recorder of the host answers during one call of handleRecord:
    [recorderState.isRecording] of the render, how the promises of [stop]
    and [prepareToRecordAsync] settle, and [audioRecorder.uri] after the
    stop (null is [None]). *)
Record recorder : Type := {
  isRecording : bool;
  stop_settles : result unit;
  recorded_uri : option jsstring;
  prepare_settles : result unit
}.

(** The effect on [recorderState.isRecording]: the counter restarts from 0
    in both branches; while recording it is incremented every second. *)
Definition recording_effect : M state unit :=
  set (setRecordingTime (fun _ => 0%N)).

Definition recording_tick : M state unit :=
  set (setRecordingTime (fun prev => (prev + 1)%N)).

(** [now] is what [Date.now()] returns in the handler. *)
Definition handleRecord (h : recorder) (now : N) : M state unit :=
  s <- read ;;
  if isRecording h then
    host audioRecorder_stop ;;
    settle (stop_settles h) ;;
    match recorded_uri h with
    | Some uri =>
      if string_truthy uri then
        let duration :=
          if (recordingTime s =? 0)%N then 1%N else recordingTime s in
        let userMessage :=
          {| id := toString now; uri := uri; from := user;
             durationSec := duration |} in
        set (setMessages (fun prev => prev ++ [userMessage])) ;;
        host (setTimeout (appendBotMessage uri duration) 1000)
      else ret tt
    | None => ret tt
    end
  else
    host audioRecorder_prepareToRecordAsync ;;
    settle (prepare_settles h) ;;
    host audioRecorder_record.

(** The callback of the timeout, run by the host; [now] is what
    [Date.now()] returns then. *)
Definition timeout (callback : timeout_callback) (now : N) : M state unit :=
  match callback with
  | appendBotMessage uri duration =>
    let botMessage :=
      {| id := toString (now + 1); uri := uri; from := bot;
         durationSec := duration |} in
    set (setMessages (fun prev => prev ++ [botMessage]))
  end.

(** Everything that changes the state of the screen while it is mounted. *)
Inductive step : state -> state -> Prop :=
| step_handleRecord h now s :
    step s (react_state (snd (run (handleRecord h now) s)))
| step_timeout callback now s :
    step s (react_state (snd (run (timeout callback now) s)))
| step_recording_effect s :
    step s (react_state (snd (run recording_effect s)))
| step_recording_tick s :
    step s (react_state (snd (run recording_tick s))).

(** ** VoiceMessageItem *)

(** [isPlaying] is [status.playing] of the render. *)
Definition handlePlay (isPlaying : bool) : M unit unit :=
  if isPlaying then
    host player_pause
  else
    host (player_seekTo 0) ;;
    host player_play.

(** The label of the play button. *)
Definition playIcon (isPlaying : bool) : jsstring :=
  if isPlaying then utf16 "⏸" else utf16 "▶︎".

(** A press of the play button on a player of the host: the calls of
    handlePlay, performed in order. *)
Section Player.
Variable player : Type.
Variable playing : player -> bool.
Variable perform : call -> player -> player.

Definition pressPlay (p : player) : player :=
  fold_left (fun p c => perform c p)
            (calls (snd (run (handlePlay (playing p)) tt))) p.

End Player.

(** A player to run the definitions on: its playing flag and its position. *)
Record simple_player : Type := { is_playing : bool; position : N }.

Definition simple_perform (c : call) (p : simple_player) : simple_player :=
  match c with
  | player_pause => {| is_playing := false; position := position p |}
  | player_play => {| is_playing := true; position := position p |}
  | player_seekTo t => {| is_playing := is_playing p; position := t |}
  | _ => p
  end.

(** ** The texts of the screen *)


(** [seconds.toFixed(1) + "s"]; the durations of the messages are
    non-negative integers.  [None] from 10^21 seconds on. *)
Definition formatDuration (seconds : N) : option jsstring :=
  match toFixed_integer 1 seconds with
  | Some digits => Some (digits ++ utf16 "s")
  | None => None
  end.


(** [keyExtractor] of the list. *)
Definition keyExtractor (item : VoiceMessage) : jsstring := id item.

(** ** The screen with the timeouts it has set

    The timeouts that handleRecord has set wait at the host until it runs
    them, each once, at a time and in an order of its choosing. *)
Record session : Type := {
  screen : state;
  pending : list timeout_callback
}.

Definition timeouts_set (cs : list call) : list timeout_callback :=
  flat_map (fun c => match c with setTimeout cb _ => [cb] | _ => [] end) cs.

Inductive action : Type :=
| press_mic (h : recorder) (now : N)   (* the microphone button: handleRecord *)
| fire (i : nat) (now : N)             (* the host runs the i-th waiting timeout *)
| tick                                 (* the recording timer *)
| recorder_changed.                    (* the effect on recorderState.isRecording *)

Definition act (x : session) (a : action) : session :=
  match a with
  | press_mic h now =>
    let w := snd (run (handleRecord h now) (screen x)) in
    {| screen := react_state w; pending := pending x ++ timeouts_set (calls w) |}
  | fire i now =>
    match nth_error (pending x) i with
    | Some cb =>
      {| screen := react_state (snd (run (timeout cb now) (screen x)));
         pending := firstn i (pending x) ++ skipn (S i) (pending x) |}
    | None => x
    end
  | tick =>
    {| screen := react_state (snd (run recording_tick (screen x)));
       pending := pending x |}
  | recorder_changed =>
    {| screen := react_state (snd (run recording_effect (screen x)));
       pending := pending x |}
  end.

Definition mounted : session := {| screen := initial; pending := [] |}.

Definition after (actions : list action) : session := fold_left act actions mounted.

Definition from_user (m : VoiceMessage) : bool :=
  match from m with user => true | bot => false end.

Definition from_bot (m : VoiceMessage) : bool :=
  match from m with user => false | bot => true end.

(** A recorder that is recording and stops with the clip [clip]. *)
Definition stops_with (clip : jsstring) : recorder :=
  {| isRecording := true; stop_settles := Ok tt;
     recorded_uri := Some clip; prepare_settles := Ok tt |}.

(** A message before index [before] that the user recorded, with the clip
    [u] and the duration [d]. *)
Definition recorded (msgs : list VoiceMessage) (u : jsstring) (d : N)
    (before : nat) : Prop :=
  exists (i : nat) (m : VoiceMessage),
    (i < before)%nat /\ msgs !! i = Some m
    /\ from m = user /\ uri m = u /\ durationSec m = d.

(** What holds of the messages and the waiting timeouts together. *)
Definition consistent (x : session) : Prop :=
  let msgs := messages (screen x) in
  Forall (fun m => (1 <= durationSec m)%N /\ uri m <> []) msgs
  /\ Forall (fun cb =>
               match cb with
               | appendBotMessage u d => recorded msgs u d (length msgs)
               end) (pending x)
  /\ (length (List.filter from_bot msgs) + length (pending x)
      = length (List.filter from_user msgs))%nat
  /\ forall (j : nat) (m : VoiceMessage),
       msgs !! j = Some m -> from m = bot ->
       recorded msgs (uri m) (durationSec m) j.

(** What an action does to the messages and to the waiting timeouts:
    nothing; or one message of the user at the end, and its timeout; or
    one waiting timeout less, and its message of the bot at the end. *)
Inductive outcome (x x' : session) : Prop :=
| same_messages :
    messages (screen x')
      = messages (screen x) ->
    pending x' = pending x ->
    outcome x x'
| user_message (m : VoiceMessage) :
    messages (screen x')
      = messages (screen x) ++ [m] ->
    from m = user ->
    (1 <= durationSec m)%N ->
    uri m <> [] ->
    pending x'
      = pending x
        ++ [appendBotMessage (uri m) (durationSec m)] ->
    outcome x x'
| bot_message (i : nat) (m : VoiceMessage) :
    nth_error (pending x) i
      = Some (appendBotMessage (uri m) (durationSec m)) ->
    messages (screen x')
      = messages (screen x) ++ [m] ->
    from m = bot ->
    pending x'
      = firstn i (pending x) ++ skipn (S i) (pending x) ->
    outcome x x'.

End VoiceChat.

(* ===================================================================== *)
(** * Properties *)
(* ===================================================================== *)

Import JS Host.

(** ** Strings *)

Lemma blank_app (s t : jsstring) : blank (s ++ t) = blank s && blank t.
Proof. unfold blank. apply forallb_app. Qed.

Lemma blank_rev (s : jsstring) : blank (rev s) = blank s.
Proof.
  induction s as [|c r IH]; [reflexivity|].
  simpl rev. rewrite blank_app, IH. simpl.
  rewrite andb_true_r. apply andb_comm.
Qed.

Lemma blank_trimStart (s : jsstring) : blank (trimStart s) = blank s.
Proof.
  induction s as [|c r IH]; [reflexivity|].
  simpl. destruct (isWhiteSpace c) eqn:E; simpl.
  - exact IH.
  - now rewrite E.
Qed.

Lemma trimStart_truthy (s : jsstring) :
  string_truthy (trimStart s) = negb (blank s).
Proof.
  induction s as [|c r IH]; [reflexivity|].
  simpl. now destruct (isWhiteSpace c).
Qed.

Lemma truthy_rev (s : jsstring) : string_truthy (rev s) = string_truthy s.
Proof.
  destruct s as [|c r]; [reflexivity|].
  simpl. now destruct (rev r).
Qed.

(** [!s.trim()] holds exactly for the blank strings. *)
Lemma trim_truthy (s : jsstring) : string_truthy (trim s) = negb (blank s).
Proof.
  unfold trim, trimEnd.
  now rewrite truthy_rev, trimStart_truthy, blank_rev, blank_trimStart.
Qed.

Lemma trim_blank (s : jsstring) : blank s = true -> trim s = [].
Proof.
  intros Hs. pose proof (trim_truthy s) as Ht. rewrite Hs in Ht.
  now destruct (trim s).
Qed.

Example trim_inner_space :
  trim (utf16 "  a b ") = utf16 "a b" /\ blank (utf16 "  a b ") = false.
Proof. split; reflexivity. Qed.

(** The ideographic space U+3000 and the line feed are white space. *)
Example blank_ideographic : blank [12288; 10; 32]%N = true.
Proof. reflexivity. Qed.

Example toString_status : toString 404 = utf16 "404" /\ toString 0 = utf16 "0".
Proof. split; reflexivity. Qed.

Example utf16_katakana : Gemini.Error_title = [12456; 12521; 12540]%N.
Proof. reflexivity. Qed.

(** ** Missing input *)

(** C1.  If the prompt or the API key is empty or holds white space only,
    handleGenerate calls fetch not once: it shows one alert, titled as an
    error and asking for the missing input, and leaves the state as it is,
    whatever the network would answer. *)
Theorem handleGenerate_blank_input (net : network) (s : Gemini.state) :
  blank (Gemini.prompt s) = true \/ blank (Gemini.apiKey s) = true ->
  let w := snd (run (Gemini.handleGenerate net) s) in
  filter is_fetch (calls w) = []
  /\ (exists message,
        calls w = [Alert_alert Gemini.Error_title (Chars message)]
        /\ (message = Gemini.no_prompt \/ message = Gemini.no_key))
  /\ react_state w = s
  /\ fst (run (Gemini.handleGenerate net) s) = Ok tt.
Proof.
  intros Hblank.
  unfold Gemini.handleGenerate, run, bind, read. simpl.
  rewrite !trim_truthy.
  destruct (blank (Gemini.prompt s)) eqn:Hp; simpl.
  - split; [reflexivity|]. split; [|split; reflexivity].
    exists Gemini.no_prompt. split; [reflexivity|now left].
  - destruct Hblank as [Hc|Hk]; [discriminate|].
    rewrite Hk. simpl.
    split; [reflexivity|]. split; [|split; reflexivity].
    exists Gemini.no_key. split; [reflexivity|now right].
Qed.

Lemma handleGenerate_blank_input_witness :
  let s := {| Gemini.prompt := utf16 "hello"; Gemini.apiKey := utf16 "   ";
              Gemini.generatedText := JString []; Gemini.isGenerating := false;
              Gemini.isSpeaking := false |} in
  let net : network := fun _ _ => Throw (ThrownValue JNull) in
  blank (Gemini.apiKey s) = true
  /\ calls (snd (run (Gemini.handleGenerate net) s))
     = [Alert_alert Gemini.Error_title (Chars Gemini.no_key)].
Proof.
  split; [reflexivity|].
  destruct (handleGenerate_blank_input
              (fun _ _ => Throw (ThrownValue JNull))
              {| Gemini.prompt := utf16 "hello"; Gemini.apiKey := utf16 "   ";
                 Gemini.generatedText := JString []; Gemini.isGenerating := false;
                 Gemini.isSpeaking := false |}
              (or_intror eq_refl)) as (_ & _ & _ & _).
  reflexivity.
Defined.

(** C7.  On both screens that speak, if the text is empty or holds white
    space only, handleSpeak shows one error alert and does not call
    Speech.speak.  On the Gemini screen the text is the generated text. *)
Theorem handleSpeak_blank_text (s : Speech.state) (g : Gemini.state)
    (generated : jsstring) :
  blank (Speech.text s) = true ->
  Gemini.generatedText g = JString generated ->
  blank generated = true ->
  let w := snd (run Speech.handleSpeak s) in
  let w' := snd (run Gemini.handleSpeak g) in
  (calls w = [Alert_alert Speech.Error_title (Chars Speech.no_text)]
   /\ filter is_speak (calls w) = [] /\ react_state w = s)
  /\ (calls w' = [Alert_alert Gemini.Error_title (Chars Gemini.nothing_to_speak)]
      /\ filter is_speak (calls w') = [] /\ react_state w' = g).
Proof.
  intros Hs Hg Hb.
  unfold Speech.handleSpeak, Gemini.handleSpeak, run, bind, read. simpl.
  rewrite Hg, !trim_truthy, Hs, Hb. simpl. repeat split.
Qed.

Lemma handleSpeak_blank_text_witness :
  let g := Gemini.setGeneratedText (JString [32; 12288]%N) Gemini.initial in
  let s := {| Speech.text := []; Speech.isSpeaking := false;
              Speech.availableVoices := []; Speech.selectedVoice := None;
              Speech.language := utf16 "ja-JP";
              Speech.pitch := Speech.n1_0; Speech.rate := Speech.n1_0 |} in
  filter is_speak (calls (snd (run Speech.handleSpeak s))) = []
  /\ filter is_speak (calls (snd (run Gemini.handleSpeak g))) = [].
Proof.
  pose proof (handleSpeak_blank_text
    {| Speech.text := []; Speech.isSpeaking := false;
       Speech.availableVoices := []; Speech.selectedVoice := None;
       Speech.language := utf16 "ja-JP";
       Speech.pitch := Speech.n1_0; Speech.rate := Speech.n1_0 |}
    (Gemini.setGeneratedText (JString [32; 12288]%N) Gemini.initial)
    [32; 12288]%N eq_refl eq_refl eq_refl) as [(_ & H1 & _) (_ & H2 & _)].
  split; [exact H1 | exact H2].
Defined.

(** With text to speak, handleSpeak calls Speech.speak once with the text
    and the settings of the screen, and shows no alert. *)
Lemma handleSpeak_speaks (s : Speech.state) :
  blank (Speech.text s) = false ->
  calls (snd (run Speech.handleSpeak s))
  = [Speech_speak (Speech.text s)
       {| language := Speech.language s; pitch := Speech.pitch s;
          rate := Speech.rate s; voice := Speech.selectedVoice s |}].
Proof.
  intros Hs. unfold Speech.handleSpeak, run, bind, read. simpl.
  now rewrite trim_truthy, Hs.
Qed.

(** ** Polling the speech engine *)

(** C8.  On both screens that speak, the effect sets one interval timer of
    500 milliseconds on checkSpeaking, which therefore runs twice in every
    second, and checkSpeaking sets isSpeaking to the polled value and
    nothing else. *)
Theorem speaking_poll :
  (ms Speech.speaking_effect = 500%N /\ ms Gemini.speaking_effect = 500%N)
  /\ (forall k : N,
        (runs_within Speech.speaking_effect (1000 * (k + 1))
         - runs_within Speech.speaking_effect (1000 * k) = 2)%N
        /\ (runs_within Gemini.speaking_effect (1000 * (k + 1))
            - runs_within Gemini.speaking_effect (1000 * k) = 2)%N)
  /\ (forall (b : bool) (s : Speech.state),
        let w := snd (run (callback Speech.speaking_effect (Ok b)) s) in
        react_state w = Speech.setIsSpeaking b s
        /\ Speech.isSpeaking (react_state w) = b)
  /\ (forall (b : bool) (g : Gemini.state),
        let w := snd (run (callback Gemini.speaking_effect (Ok b)) g) in
        react_state w = Gemini.setIsSpeaking b g
        /\ Gemini.isSpeaking (react_state w) = b).
Proof.
  split; [split; reflexivity|].
  split.
  - intros k. unfold runs_within. simpl ms.
    replace (1000 * (k + 1))%N with ((2 * (k + 1)) * 500)%N by lia.
    replace (1000 * k)%N with ((2 * k) * 500)%N by lia.
    rewrite !N.div_mul by discriminate. split; lia.
  - split; intros b s; split; reflexivity.
Qed.

(** ** Pitch and rate *)

Lemma number_eqb_eq (x y : number) : Speech.number_eqb x y = true -> x = y.
Proof.
  destruct x as [a|a| |a m e], y as [b|b| |b n f]; simpl; try discriminate.
  - intros ->%Bool.eqb_prop. reflexivity.
  - intros ->%Bool.eqb_prop. reflexivity.
  - reflexivity.
  - intros [[->%Bool.eqb_prop ->%Pos.eqb_eq]%andb_prop ->%Z.eqb_eq]%andb_prop.
    reflexivity.
Qed.

Lemma known_In (x : number) (seen : list number) :
  Speech.known x seen = true -> In x seen.
Proof.
  unfold Speech.known. intros (y & Hy & Heq)%existsb_exists.
  apply number_eqb_eq in Heq. now subst.
Qed.

Lemma number_eqb_refl (x : number) : Speech.number_eqb x x = true.
Proof.
  destruct x as [a|a| |a m e]; simpl; trivial.
  - now destruct a.
  - now destruct a.
  - rewrite Pos.eqb_refl, Z.eqb_refl. now destruct a.
Qed.

Lemma In_known (x : number) (seen : list number) :
  In x seen -> Speech.known x seen = true.
Proof.
  intros Hx. apply existsb_exists. exists x. split; [exact Hx|].
  apply number_eqb_refl.
Qed.

(** The settings are 45 binary64 numbers; one more step from any of them
    leads to one of them, and all of them lie in the interval. *)
Lemma settings_closed :
  forallb (fun x => Speech.known (Speech.decrement x) Speech.settings
                    && Speech.known (Speech.increment x) Speech.settings)
          Speech.settings = true.
Proof. vm_compute. reflexivity. Qed.

Lemma settings_in_range : forallb Speech.in_range Speech.settings = true.
Proof. vm_compute. reflexivity. Qed.

Lemma settings_step (x : number) :
  In x Speech.settings ->
  In (Speech.decrement x) Speech.settings
  /\ In (Speech.increment x) Speech.settings.
Proof.
  intros Hx.
  pose proof settings_closed as Hc. rewrite forallb_forall in Hc.
  apply Hc in Hx. apply andb_prop in Hx as [Hd Hi].
  split; now apply known_In.
Qed.

Lemma settings_initial : In Speech.n1_0 Speech.settings.
Proof. apply known_In. vm_compute. reflexivity. Qed.

Lemma press_settled (s : Speech.state) (b : Speech.button) :
  Speech.settled s -> Speech.settled (Speech.press s b).
Proof.
  intros [Hp Hr]. destruct (settings_step _ Hp), (settings_step _ Hr).
  destruct b; split; assumption.
Qed.

Lemma presses_settled (bs : list Speech.button) (s : Speech.state) :
  Speech.settled s -> Speech.settled (Speech.presses bs s).
Proof.
  revert s. induction bs as [|b bs IH]; intros s Hs; [exact Hs|].
  simpl. apply IH, press_settled, Hs.
Qed.

(** C9.  Pitch and rate start at 1.0; a press of a minus button replaces
    the value [x] by max(0.5, x - 0.1) and a press of a plus button by
    min(2.0, x + 0.1), in binary64 arithmetic; and after any sequence of
    presses both values satisfy 0.5 <= x <= 2.0. *)
Theorem pitch_rate_in_range (bs : list Speech.button) :
  (Speech.pitch Speech.initial = lit 1 0 /\ Speech.rate Speech.initial = lit 1 0)
  /\ (forall s,
        Speech.pitch (Speech.press s Speech.pitch_minus)
          = Math_max Speech.n0_5 (sub (Speech.pitch s) Speech.n0_1)
        /\ Speech.pitch (Speech.press s Speech.pitch_plus)
          = Math_min Speech.n2_0 (add (Speech.pitch s) Speech.n0_1)
        /\ Speech.rate (Speech.press s Speech.rate_minus)
          = Math_max Speech.n0_5 (sub (Speech.rate s) Speech.n0_1)
        /\ Speech.rate (Speech.press s Speech.rate_plus)
          = Math_min Speech.n2_0 (add (Speech.rate s) Speech.n0_1))
  /\ (let s := Speech.presses bs Speech.initial in
      (leb Speech.n0_5 (Speech.pitch s) = true
       /\ leb (Speech.pitch s) Speech.n2_0 = true)
      /\ (leb Speech.n0_5 (Speech.rate s) = true
          /\ leb (Speech.rate s) Speech.n2_0 = true)).
Proof.
  split; [split; reflexivity|].
  split; [intros s; repeat split|].
  destruct (presses_settled bs Speech.initial) as [Hp Hr].
  { split; apply settings_initial. }
  pose proof settings_in_range as Hall. rewrite forallb_forall in Hall.
  apply Hall in Hp, Hr. unfold Speech.in_range in Hp, Hr.
  apply andb_prop in Hp, Hr. simpl. tauto.
Qed.

(** Ten presses of pitch - from 1.0 stop at 0.5, and the sixth + after them
    gives 1.0999999999999999, not 1.1: the values are those of binary64. *)
Example pitch_floor :
  Speech.pitch (Speech.presses (repeat Speech.pitch_minus 10) Speech.initial)
  = Speech.n0_5.
Proof. vm_compute. reflexivity. Qed.

Example pitch_rounding :
  Speech.pitch (Speech.presses
    (repeat Speech.pitch_minus 10 ++ repeat Speech.pitch_plus 6) Speech.initial)
  = S754_finite false 4953959590107545 (-52)
  /\ Speech.pitch (Speech.presses [Speech.pitch_plus] Speech.initial)
     = S754_finite false 4953959590107546 (-52).
Proof. split; vm_compute; reflexivity. Qed.

(** ** Recording *)

(** C4.  When handleRecord runs while the recorder is recording, the stop
    succeeds and the recorder has a clip URI (not null, not empty), it
    appends exactly one message from "user" to the list and sets exactly
    one timeout, of 1000 milliseconds; when that timeout runs, on whatever
    the list is by then, it appends exactly one message from "bot" with the
    same URI and the same duration.  Nothing else changes the list. *)
Theorem handleRecord_stop (h : VoiceChat.recorder) (now : N)
    (s : VoiceChat.state) (clip : jsstring) :
  VoiceChat.isRecording h = true ->
  VoiceChat.stop_settles h = Ok tt ->
  VoiceChat.recorded_uri h = Some clip ->
  clip <> [] ->
  let w := snd (run (VoiceChat.handleRecord h now) s) in
  exists userMessage,
    VoiceChat.messages (react_state w) = VoiceChat.messages s ++ [userMessage]
    /\ VoiceChat.from userMessage = VoiceChat.user
    /\ VoiceChat.uri userMessage = clip
    /\ calls w = [audioRecorder_stop;
                  setTimeout (appendBotMessage clip (VoiceChat.durationSec userMessage)) 1000]
    /\ forall (later : N) (s' : VoiceChat.state),
         let w' := snd (run (VoiceChat.timeout
                     (appendBotMessage clip (VoiceChat.durationSec userMessage))
                     later) s') in
         exists botMessage,
           VoiceChat.messages (react_state w')
             = VoiceChat.messages s' ++ [botMessage]
           /\ VoiceChat.from botMessage = VoiceChat.bot
           /\ VoiceChat.uri botMessage = VoiceChat.uri userMessage
           /\ VoiceChat.durationSec botMessage = VoiceChat.durationSec userMessage
           /\ calls w' = [].
Proof.
  intros Hrec Hstop Huri Hclip.
  unfold VoiceChat.handleRecord, run, bind, read, settle. simpl.
  rewrite Hrec, Hstop, Huri.
  destruct clip as [|c r]; [contradiction|]. simpl.
  eexists. split; [reflexivity|]. split; [reflexivity|].
  split; [reflexivity|]. split; [reflexivity|].
  intros later s'. eexists. repeat split.
Qed.

Lemma handleRecord_stop_witness :
  let h := {| VoiceChat.isRecording := true; VoiceChat.stop_settles := Ok tt;
              VoiceChat.recorded_uri := Some (utf16 "file:///clip.m4a");
              VoiceChat.prepare_settles := Ok tt |} in
  let s := {| VoiceChat.messages := []; VoiceChat.recordingTime := 3 |} in
  exists userMessage,
    VoiceChat.messages
      (react_state (snd (run (VoiceChat.handleRecord h 1700000000000) s)))
    = [userMessage]
    /\ VoiceChat.durationSec userMessage = 3%N.
Proof.
  destruct (handleRecord_stop
    {| VoiceChat.isRecording := true; VoiceChat.stop_settles := Ok tt;
       VoiceChat.recorded_uri := Some (utf16 "file:///clip.m4a");
       VoiceChat.prepare_settles := Ok tt |}
    1700000000000
    {| VoiceChat.messages := []; VoiceChat.recordingTime := 3 |}
    (utf16 "file:///clip.m4a") eq_refl eq_refl eq_refl)
    as (m & Hm & _).
  - discriminate.
  - eexists. split; reflexivity.
Defined.

(** The duration is the recording time of the render, and 1 when that is
    0; the identifiers are the timestamps in decimal. *)
Example handleRecord_then_timeout :
  let h := {| VoiceChat.isRecording := true; VoiceChat.stop_settles := Ok tt;
              VoiceChat.recorded_uri := Some (utf16 "a");
              VoiceChat.prepare_settles := Ok tt |} in
  let s1 := react_state (snd (run (VoiceChat.handleRecord h 41) VoiceChat.initial)) in
  let s2 := react_state (snd (run (VoiceChat.timeout (appendBotMessage (utf16 "a") 1) 1041) s1)) in
  VoiceChat.messages s2
  = [ {| VoiceChat.id := utf16 "41"; VoiceChat.uri := utf16 "a";
         VoiceChat.from := VoiceChat.user; VoiceChat.durationSec := 1 |};
      {| VoiceChat.id := utf16 "1042"; VoiceChat.uri := utf16 "a";
         VoiceChat.from := VoiceChat.bot; VoiceChat.durationSec := 1 |} ].
Proof. reflexivity. Qed.

(** Without a clip URI the list is left as it is and no timeout is set. *)
Lemma handleRecord_no_clip (h : VoiceChat.recorder) (now : N) (s : VoiceChat.state) :
  VoiceChat.isRecording h = true ->
  VoiceChat.recorded_uri h = None \/ VoiceChat.recorded_uri h = Some [] ->
  let w := snd (run (VoiceChat.handleRecord h now) s) in
  react_state w = s /\ calls w = [audioRecorder_stop].
Proof.
  intros Hrec Huri.
  unfold VoiceChat.handleRecord, run, bind, read, settle. simpl.
  rewrite Hrec.
  destruct (VoiceChat.stop_settles h) as [[]|e]; simpl; [|split; reflexivity].
  destruct Huri as [-> | ->]; split; reflexivity.
Qed.

(** ** The message list only grows *)

Lemma step_prefix (s s' : VoiceChat.state) :
  VoiceChat.step s s' ->
  VoiceChat.messages s `prefix_of` VoiceChat.messages s'.
Proof.
  intros Hstep. destruct Hstep as [h now s|cb now s|s|s].
  - unfold VoiceChat.handleRecord, run, bind, read, settle. simpl.
    destruct (VoiceChat.isRecording h); simpl.
    + destruct (VoiceChat.stop_settles h) as [[]|e]; simpl; [|reflexivity].
      destruct (VoiceChat.recorded_uri h) as [[|c r]|]; simpl;
        try reflexivity.
      now apply prefix_app_r.
    + destruct (VoiceChat.prepare_settles h) as [[]|e]; reflexivity.
  - destruct cb as [clip d]. simpl. now apply prefix_app_r.
  - reflexivity.
  - reflexivity.
Qed.

(** C6.  Whatever happens on the screen between two of its states (calls
    of handleRecord, timeouts, the recording timer), the message list of
    the later state is the earlier list with entries added at its end: no
    entry is removed or modified, so the entry at each index keeps its id,
    uri, sender and duration. *)
Theorem messages_append_only (s s' : VoiceChat.state) :
  rtc VoiceChat.step s s' ->
  (exists added, VoiceChat.messages s' = VoiceChat.messages s ++ added)
  /\ forall (i : nat) (m : VoiceChat.VoiceMessage),
       VoiceChat.messages s !! i = Some m ->
       VoiceChat.messages s' !! i = Some m.
Proof.
  intros Hsteps.
  assert (Hp : VoiceChat.messages s `prefix_of` VoiceChat.messages s').
  { induction Hsteps as [s|s1 s2 s3 H12 _ IH]; [reflexivity|].
    etrans; [apply step_prefix, H12 | exact IH]. }
  split; [exact Hp|].
  intros i m Hi. eapply prefix_lookup_Some; eassumption.
Qed.

Lemma messages_append_only_witness :
  let h := {| VoiceChat.isRecording := true; VoiceChat.stop_settles := Ok tt;
              VoiceChat.recorded_uri := Some (utf16 "a");
              VoiceChat.prepare_settles := Ok tt |} in
  let s1 := react_state (snd (run (VoiceChat.handleRecord h 41) VoiceChat.initial)) in
  let s2 := react_state (snd (run (VoiceChat.timeout (appendBotMessage (utf16 "a") 1) 1041) s1)) in
  rtc VoiceChat.step s1 s2
  /\ VoiceChat.messages s2 !! 0%nat = VoiceChat.messages s1 !! 0%nat.
Proof.
  intros h s1 s2.
  assert (H12 : rtc VoiceChat.step s1 s2).
  { apply rtc_once. apply VoiceChat.step_timeout. }
  split; [exact H12|].
  destruct (messages_append_only s1 s2 H12) as [_ Hkeep].
  rewrite (Hkeep 0%nat _ eq_refl). reflexivity.
Defined.

(** ** Playback *)

(** C5.  A press of the play button calls pause when the player reports
    playing, and seekTo(0) and then play when it does not.  On a player
    whose playing flag is cleared by pause and set by play, a press
    therefore flips the flag, and the button alternates between its two
    labels from one press to the next. *)
Theorem handlePlay_alternates (player : Type) (playing : player -> bool)
    (perform : call -> player -> player) :
  (forall p, playing (perform player_pause p) = false) ->
  (forall p, playing (perform player_play p) = true) ->
  forall p : player,
    let p1 := VoiceChat.pressPlay player playing perform p in
    let p2 := VoiceChat.pressPlay player playing perform p1 in
    calls (snd (run (VoiceChat.handlePlay (playing p)) tt))
      = (if playing p then [player_pause] else [player_seekTo 0; player_play])
    /\ playing p1 = negb (playing p)
    /\ playing p2 = playing p
    /\ VoiceChat.playIcon (playing p1) <> VoiceChat.playIcon (playing p)
    /\ VoiceChat.playIcon (playing p2) = VoiceChat.playIcon (playing p).
Proof.
  intros Hpause Hplay p p1 p2.
  assert (Hflip : forall q,
    playing (VoiceChat.pressPlay player playing perform q) = negb (playing q)).
  { intros q. unfold VoiceChat.pressPlay.
    destruct (playing q); simpl; [apply Hpause | apply Hplay]. }
  split; [now destruct (playing p)|].
  split; [apply Hflip|].
  split; [unfold p2, p1; rewrite !Hflip; apply negb_involutive|].
  split.
  - unfold p1. rewrite Hflip. destruct (playing p); discriminate.
  - unfold p2, p1. rewrite !Hflip, negb_involutive. reflexivity.
Qed.

Lemma handlePlay_alternates_witness :
  let p := {| VoiceChat.is_playing := false; VoiceChat.position := 7 |} in
  let press := VoiceChat.pressPlay VoiceChat.simple_player
                 VoiceChat.is_playing VoiceChat.simple_perform in
  press p = {| VoiceChat.is_playing := true; VoiceChat.position := 0 |}
  /\ VoiceChat.is_playing (press (press p)) = false.
Proof.
  split; [reflexivity|].
  destruct (handlePlay_alternates VoiceChat.simple_player
              VoiceChat.is_playing VoiceChat.simple_perform
              (fun p => eq_refl) (fun p => eq_refl)
              {| VoiceChat.is_playing := false; VoiceChat.position := 7 |})
    as (_ & _ & H2 & _).
  exact H2.
Defined.

(** ** Generation *)

(** How a path step of the specification is read by the source: on an
    object or an array that has the member or element, [v.p], [v?.p] and
    [v?.[0]] yield it. *)
Lemma property_json_member (p : prop) (v x : json) :
  Gemini.json_member (prop_name p) v = Some x ->
  member v p = Ok (Some x) /\ opt_member (Some v) p = Some x.
Proof. destruct v; simpl; try discriminate. intros ->. split; reflexivity. Qed.

Lemma property_json_element (v x : json) :
  Gemini.json_element 0 v = Some x -> opt_member (Some v) p_0 = Some x.
Proof.
  destruct v as [| | | |elems|]; simpl; try discriminate.
  destruct elems; simpl; [discriminate|]. intros [= ->]. reflexivity.
Qed.

(** Where the path of the specification finds the field, the optional
    chain of the source finds the same value. *)
Lemma text_of_spec (body v : json) :
  Gemini.spec_text_field body = Some v -> Gemini.text_of body = Ok (Some v).
Proof.
  unfold Gemini.spec_text_field, Gemini.text_of. intros Hpath.
  destruct (Gemini.json_member (utf16 "candidates") body) as [candidates|] eqn:H1;
    [|discriminate].
  simpl in Hpath.
  destruct (Gemini.json_element 0 candidates) as [candidate|] eqn:H2;
    [|discriminate].
  simpl in Hpath.
  destruct (Gemini.json_member (utf16 "content") candidate) as [content|] eqn:H3;
    [|discriminate].
  simpl in Hpath.
  destruct (Gemini.json_member (utf16 "parts") content) as [parts|] eqn:H4;
    [|discriminate].
  simpl in Hpath.
  destruct (Gemini.json_element 0 parts) as [part|] eqn:H5; [|discriminate].
  simpl in Hpath.
  destruct (property_json_member p_candidates _ _ H1) as [-> _].
  rewrite (property_json_element _ _ H2).
  destruct (property_json_member p_content _ _ H3) as [_ ->].
  destruct (property_json_member p_parts _ _ H4) as [_ ->].
  rewrite (property_json_element _ _ H5).
  destruct (property_json_member p_text _ _ Hpath) as [_ ->].
  reflexivity.
Qed.

(** Only a null body makes the chain throw. *)
Lemma text_of_not_null (body : json) :
  body <> JNull -> exists found, Gemini.text_of body = Ok found.
Proof.
  intros Hbody. unfold Gemini.text_of.
  destruct body; try contradiction; simpl; eauto.
Qed.

(** The run of handleGenerate once the input is there: the two updates,
    the request, and what follows from the outcome of the request. *)
Lemma handleGenerate_ready (net : network) (s : Gemini.state) :
  blank (Gemini.prompt s) = false ->
  blank (Gemini.apiKey s) = false ->
  let s1 := Gemini.setIsGenerating true s in
  let s2 := Gemini.setGeneratedText (JString []) s1 in
  let sent := [Update s1; Update s2;
               Call (fetch Gemini.GEMINI_API_URL (Gemini.request s))] in
  let failed (e : thrown) :=
    (Ok tt, World (Gemini.setIsGenerating false s2)
       (sent ++ [Call (Alert_alert Gemini.Error_title (Gemini.errorMessage e));
                 Call (console_error (utf16 "Gemini API error:") e);
                 Update (Gemini.setIsGenerating false s2)])) in
  run (Gemini.handleGenerate net) s =
  match net Gemini.GEMINI_API_URL (Gemini.request s) with
  | Throw e => failed e
  | Ok r =>
    if ok r then
      match json_body r with
      | Throw e => failed e
      | Ok data =>
        match Gemini.text_of data with
        | Throw e => failed e
        | Ok found =>
          let text := or_else found (JString Gemini.fallback) in
          (Ok tt,
           World (Gemini.setIsGenerating false (Gemini.setGeneratedText text s2))
             (sent ++ [Update (Gemini.setGeneratedText text s2);
                       Update (Gemini.setIsGenerating false
                                 (Gemini.setGeneratedText text s2))]))
        end
      end
    else
      match Gemini.message_of
              (promise_catch (json_body r) (fun _ => JObject [])) with
      | Throw e => failed e
      | Ok message =>
        match new_Error (or_else message
                           (JString (Gemini.api_error (status r)))) with
        | Throw e => failed e
        | Ok e => failed e
        end
      end
  end.
Proof.
  intros Hp Hk.
  unfold Gemini.handleGenerate, run, bind, read. cbn beta iota.
  cbn [react_state trace fst snd].
  rewrite !trim_truthy, Hp, Hk. cbn [negb].
  unfold try_finally, try_catch, bind, set, host, settle, throw.
  cbn [react_state trace].
  destruct (net Gemini.GEMINI_API_URL (Gemini.request s)) as [r|e];
    [|reflexivity].
  destruct (ok r); cbn [negb].
  - destruct (json_body r) as [data|e]; [|reflexivity].
    destruct (Gemini.text_of data) as [found|e]; reflexivity.
  - destruct (Gemini.message_of _) as [message|e]; [|reflexivity].
    destruct (new_Error _) as [e|e]; reflexivity.
Qed.

(** The optional chain reads more than the path does: [candidates?.[0]]
    also answers on an object that has a member named 0.  On a string, on a
    number and where a step is missing it yields undefined. *)
Example text_of_shapes :
  let part := JObject [ (utf16 "text", JString (utf16 "AI")) ] in
  let content := JObject [ (utf16 "parts", JArray [ part ]) ] in
  let keyed := JObject [ (utf16 "candidates",
                 JObject [ (utf16 "0", JObject [ (utf16 "content", content) ]) ]) ] in
  Gemini.text_of keyed = Ok (Some (JString (utf16 "AI")))
  /\ Gemini.spec_text_field keyed = None
  /\ Gemini.text_of (JObject [ (utf16 "candidates", JString (utf16 "x")) ]) = Ok None
  /\ Gemini.text_of (JObject [ (utf16 "candidates", JArray []) ]) = Ok None
  /\ Gemini.text_of (JObject []) = Ok None
  /\ Gemini.text_of (JNumber (lit 1 0)) = Ok None
  /\ Gemini.text_of JNull = Throw (TypeError (ReadOfNull p_candidates)).
Proof. repeat split. Qed.

(** A successful response with a body that is JSON and not null. *)
Lemma handleGenerate_success_body (net : network) (s : Gemini.state)
    (r : response) (data : json) :
  blank (Gemini.prompt s) = false ->
  blank (Gemini.apiKey s) = false ->
  net Gemini.GEMINI_API_URL (Gemini.request s) = Ok r ->
  ok r = true ->
  json_body r = Ok data ->
  data <> JNull ->
  let w := snd (run (Gemini.handleGenerate net) s) in
  exists found,
    Gemini.text_of data = Ok found
    /\ (forall v, Gemini.spec_text_field data = Some v -> found = Some v)
    /\ Gemini.generatedText (react_state w)
       = match found with
         | Some v => if truthy v then v else JString Gemini.fallback
         | None => JString Gemini.fallback
         end
    /\ calls w = [fetch Gemini.GEMINI_API_URL (Gemini.request s)].
Proof.
  intros Hp Hk Hnet Hok Hbody Hdata w. subst w.
  rewrite (handleGenerate_ready net s Hp Hk), Hnet, Hok, Hbody.
  destruct (text_of_not_null data Hdata) as [found Hfound].
  rewrite Hfound. exists found.
  split; [reflexivity|]. split.
  - intros v Hv. apply text_of_spec in Hv. congruence.
  - split; [|reflexivity]. now destruct found.
Qed.

(** C2, as the code has it.  After a successful response whose body parses
    to a JSON value other than null, handleGenerate sets the generated
    text to the value at candidates[0].content.parts[0].text when that
    value is there and truthy (a string that is not empty), and to the
    fallback string when it is absent or falsy, and shows no alert.  When
    the body does not parse, no text is set: the generated text stays
    empty and an alert shows the message of the error. *)
Theorem handleGenerate_success (net : network) (s : Gemini.state) (r : response) :
  blank (Gemini.prompt s) = false ->
  blank (Gemini.apiKey s) = false ->
  net Gemini.GEMINI_API_URL (Gemini.request s) = Ok r ->
  ok r = true ->
  let w := snd (run (Gemini.handleGenerate net) s) in
  match json_body r with
  | Ok JNull => True
  | Ok data =>
    exists found,
      Gemini.text_of data = Ok found
      /\ (forall v, Gemini.spec_text_field data = Some v -> found = Some v)
      /\ Gemini.generatedText (react_state w)
         = match found with
           | Some v => if truthy v then v else JString Gemini.fallback
           | None => JString Gemini.fallback
           end
      /\ calls w = [fetch Gemini.GEMINI_API_URL (Gemini.request s)]
  | Throw e =>
    Gemini.generatedText (react_state w) = JString []
    /\ calls w = [fetch Gemini.GEMINI_API_URL (Gemini.request s);
                  Alert_alert Gemini.Error_title (Gemini.errorMessage e);
                  console_error (utf16 "Gemini API error:") e]
  end.
Proof.
  intros Hp Hk Hnet Hok w.
  destruct (json_body r) as [data|e] eqn:Hbody.
  - destruct data; try exact I;
      (eapply handleGenerate_success_body; eauto; discriminate).
  - subst w.
    rewrite (handleGenerate_ready net s Hp Hk), Hnet, Hok, Hbody.
    split; reflexivity.
Qed.

Lemma handleGenerate_success_witness :
  let body :=
    JObject [ (utf16 "candidates",
      JArray [ JObject [ (utf16 "content",
        JObject [ (utf16 "parts",
          JArray [ JObject [ (utf16 "text", JString (utf16 "AI")) ] ]) ]) ] ]) ] in
  let net : network :=
    fun _ _ => Ok {| ok := true; status := 200; json_body := Ok body |} in
  let s := Gemini.setGeneratedText (JString (utf16 "old"))
             {| Gemini.prompt := utf16 "hi"; Gemini.apiKey := utf16 "key";
                Gemini.generatedText := JString [];
                Gemini.isGenerating := false; Gemini.isSpeaking := false |} in
  Gemini.spec_text_field body = Some (JString (utf16 "AI"))
  /\ Gemini.generatedText (react_state (snd (run (Gemini.handleGenerate net) s)))
     = JString (utf16 "AI").
Proof.
  intros body net s. split; [reflexivity|].
  destruct (handleGenerate_success net s
              {| ok := true; status := 200; json_body := Ok body |}
              eq_refl eq_refl eq_refl eq_refl) as (found & Hf & _ & Hg & _).
  rewrite Hg. injection Hf as <-. reflexivity.
Defined.

(** C2, as the specification states it, fails on the code.  A successful
    response whose text field is the empty string displays the fallback and
    not the field; and a successful response whose body is not JSON displays
    nothing, where the specification has the fallback. *)
Lemma handleGenerate_success_counterexample :
  let s := {| Gemini.prompt := utf16 "hi"; Gemini.apiKey := utf16 "key";
              Gemini.generatedText := JString [];
              Gemini.isGenerating := false; Gemini.isSpeaking := false |} in
  let empty_text :=
    {| ok := true; status := 200;
       json_body := Ok (JObject [ (utf16 "candidates",
         JArray [ JObject [ (utf16 "content",
           JObject [ (utf16 "parts",
             JArray [ JObject [ (utf16 "text", JString []) ] ]) ]) ] ]) ]) |} in
  let not_json :=
    {| ok := true; status := 200;
       json_body := Throw (ErrorInstance (Chars (utf16 "JSON Parse error"))) |} in
  let shown (r : response) :=
    Gemini.generatedText
      (react_state (snd (run (Gemini.handleGenerate (fun _ _ => Ok r)) s))) in
  (Gemini.spec_displayed empty_text = JString []
   /\ shown empty_text = JString Gemini.fallback
   /\ shown empty_text <> Gemini.spec_displayed empty_text)
  /\ (Gemini.spec_displayed not_json = JString Gemini.fallback
      /\ shown not_json = JString []
      /\ shown not_json <> Gemini.spec_displayed not_json).
Proof.
  cbv zeta. split; (split; [reflexivity|]); (split; [reflexivity|]);
    vm_compute; discriminate.
Qed.

(** A successful response whose body is the JSON value null: reading
    [data.candidates] throws, the alert shows the message of that TypeError
    and no text is set. *)
Example handleGenerate_null_body :
  let s := {| Gemini.prompt := utf16 "hi"; Gemini.apiKey := utf16 "key";
              Gemini.generatedText := JString [];
              Gemini.isGenerating := false; Gemini.isSpeaking := false |} in
  let net : network :=
    fun _ _ => Ok {| ok := true; status := 200; json_body := Ok JNull |} in
  let w := snd (run (Gemini.handleGenerate net) s) in
  filter is_alert (calls w)
  = [Alert_alert Gemini.Error_title (TypeErrorText (ReadOfNull p_candidates))]
  /\ Gemini.generatedText (react_state w) = JString [].
Proof. split; reflexivity. Qed.

(** C3 on a response that is not a success and whose body is the JSON
    value null: reading [errorData.error] throws, and the alert shows the
    message of that TypeError, which is neither a message of the server nor
    the status. *)
Example handleGenerate_null_error_body :
  let s := {| Gemini.prompt := utf16 "hi"; Gemini.apiKey := utf16 "key";
              Gemini.generatedText := JString [];
              Gemini.isGenerating := false; Gemini.isSpeaking := false |} in
  let net : network :=
    fun _ _ => Ok {| ok := false; status := 500; json_body := Ok JNull |} in
  calls (snd (run (Gemini.handleGenerate net) s))
  = [fetch Gemini.GEMINI_API_URL (Gemini.request s);
     Alert_alert Gemini.Error_title (TypeErrorText (ReadOfNull p_error));
     console_error (utf16 "Gemini API error:") (TypeError (ReadOfNull p_error))]
  /\ TypeErrorText (ReadOfNull p_error) <> Chars (Gemini.api_error 500).
Proof. split; [reflexivity|discriminate]. Qed.

(** A response that is not a success and whose body is not null: one
    request, and one alert that shows [error.message] of the body when it
    is a string that is not empty, and the status code when the body is not
    JSON or has no such member or an empty one. *)
Lemma handleGenerate_not_ok (net : network) (s : Gemini.state) (r : response) :
  blank (Gemini.prompt s) = false ->
  blank (Gemini.apiKey s) = false ->
  net Gemini.GEMINI_API_URL (Gemini.request s) = Ok r ->
  ok r = false ->
  json_body r <> Ok JNull ->
  let w := snd (run (Gemini.handleGenerate net) s) in
  let errorData := promise_catch (json_body r) (fun _ => JObject []) in
  exists shown,
    calls w = [fetch Gemini.GEMINI_API_URL (Gemini.request s);
               Alert_alert Gemini.Error_title shown;
               console_error (utf16 "Gemini API error:") (ErrorInstance shown)]
    /\ match opt_member (property errorData p_error) p_message with
       | Some (JString m) =>
         shown = Chars (if string_truthy m then m
                        else Gemini.api_error (status r))
       | Some v =>
         if truthy v
         then shown = ToStringOf v \/ shown = TypeErrorText CannotConvert
         else shown = Chars (Gemini.api_error (status r))
       | None => shown = Chars (Gemini.api_error (status r))
       end.
Proof.
  intros Hp Hk Hnet Hok Hbody w errorData. subst w.
  rewrite (handleGenerate_ready net s Hp Hk), Hnet, Hok.
  fold errorData.
  assert (HerrorData : errorData <> JNull).
  { unfold errorData. destruct (json_body r) as [[]|e]; simpl; congruence. }
  assert (Hmessage : Gemini.message_of errorData
                     = Ok (opt_member (property errorData p_error) p_message)).
  { unfold Gemini.message_of, member. now destruct errorData. }
  rewrite Hmessage.
  destruct (opt_member (property errorData p_error) p_message) as [v|];
    [|eexists; split; reflexivity].
  destruct v as [|b|x|m|elems|members]; simpl or_else.
  - eexists; split; reflexivity.
  - destruct b; eexists; (split; [reflexivity|]); simpl; auto.
  - simpl truthy. destruct (number_truthy x);
      eexists; (split; [reflexivity|]); auto.
  - destruct m; eexists; split; reflexivity.
  - unfold new_Error, ToString. simpl truthy. cbv iota.
    destruct (unprintable (JArray elems));
      eexists; (split; [reflexivity|]); auto.
  - unfold new_Error, ToString. simpl truthy. cbv iota.
    destruct (unprintable (JObject members));
      eexists; (split; [reflexivity|]); auto.
Qed.

(** C10.  Once the input is there, handleGenerate ends with isGenerating
    false whatever the request does.  When the request fails (fetch throws,
    or the response is not a success), the generated text ends empty: the
    state is set to generating, then the text is set to the empty string,
    then the request is sent, and after it there are only the alert, the
    console log and the update that resets isGenerating; no update assigns
    the text. *)
Theorem handleGenerate_failure (net : network) (s : Gemini.state) :
  blank (Gemini.prompt s) = false ->
  blank (Gemini.apiKey s) = false ->
  let w := snd (run (Gemini.handleGenerate net) s) in
  let s1 := Gemini.setIsGenerating true s in
  let s2 := Gemini.setGeneratedText (JString []) s1 in
  Gemini.isGenerating (react_state w) = false
  /\ ((forall r, net Gemini.GEMINI_API_URL (Gemini.request s) = Ok r ->
                 ok r = false) ->
      Gemini.generatedText (react_state w) = JString []
      /\ exists e,
           trace w =
           [Update s1; Update s2;
            Call (fetch Gemini.GEMINI_API_URL (Gemini.request s));
            Call (Alert_alert Gemini.Error_title (Gemini.errorMessage e));
            Call (console_error (utf16 "Gemini API error:") e);
            Update (Gemini.setIsGenerating false s2)]).
Proof.
  intros Hp Hk w s1 s2. subst w.
  rewrite (handleGenerate_ready net s Hp Hk).
  destruct (net Gemini.GEMINI_API_URL (Gemini.request s)) as [r|e].
  - destruct (ok r) eqn:Hok.
    + split.
      * destruct (json_body r) as [data|e]; [|reflexivity].
        destruct (Gemini.text_of data); reflexivity.
      * intros Hfail. specialize (Hfail r eq_refl). congruence.
    + destruct (Gemini.message_of _) as [message|e].
      * destruct (new_Error _) as [e|e];
          (split; [reflexivity|]); intros _; (split; [reflexivity|]);
          exists e; reflexivity.
      * split; [reflexivity|]. intros _. split; [reflexivity|].
        exists e. reflexivity.
  - split; [reflexivity|]. intros _. split; [reflexivity|].
    exists e. reflexivity.
Qed.

Lemma handleGenerate_failure_witness :
  let s := {| Gemini.prompt := utf16 "hi"; Gemini.apiKey := utf16 "key";
              Gemini.generatedText := JString (utf16 "old");
              Gemini.isGenerating := false; Gemini.isSpeaking := false |} in
  let net : network :=
    fun _ _ => Throw (ErrorInstance (Chars (utf16 "Network request failed"))) in
  let w := snd (run (Gemini.handleGenerate net) s) in
  Gemini.isGenerating (react_state w) = false
  /\ Gemini.generatedText (react_state w) = JString [].
Proof.
  intros s net w.
  destruct (handleGenerate_failure net s eq_refl eq_refl) as [Hgen Hfail].
  split; [exact Hgen|].
  destruct Hfail as [Htext _]; [|exact Htext].
  intros r Hr. discriminate Hr.
Defined.

(** The status is shown when the body of the failed response is not JSON,
    and the message of the server when it has one. *)
Example handleGenerate_status_alert :
  let s := {| Gemini.prompt := utf16 "hi"; Gemini.apiKey := utf16 "key";
              Gemini.generatedText := JString [];
              Gemini.isGenerating := false; Gemini.isSpeaking := false |} in
  let not_json : network :=
    fun _ _ => Ok {| ok := false; status := 503;
                     json_body := Throw (ErrorInstance (Chars (utf16 "JSON Parse error"))) |} in
  let with_message : network :=
    fun _ _ => Ok {| ok := false; status := 400;
                     json_body := Ok (JObject [ (utf16 "error",
                       JObject [ (utf16 "code", JNumber (lit 400 0));
                                 (utf16 "message", JString (utf16 "API key not valid")) ]) ]) |} in
  filter is_alert (calls (snd (run (Gemini.handleGenerate not_json) s)))
  = [Alert_alert Gemini.Error_title (Chars (utf16 "APIエラー: 503"))]
  /\ filter is_alert (calls (snd (run (Gemini.handleGenerate with_message) s)))
     = [Alert_alert Gemini.Error_title (Chars (utf16 "API key not valid"))].
Proof. split; reflexivity. Qed.

(* ===================================================================== *)
(** * Further properties of the screens *)
(* ===================================================================== *)
(** ** Decimal digits *)

Lemma digits_fuel_acc (k : nat) (n : N) (acc : jsstring) :
  digits_fuel k n acc = digits_fuel k n [] ++ acc.
Proof.
  revert n acc. induction k as [|k IH]; intros n acc; [reflexivity|].
  cbn [digits_fuel]. destruct (n / 10 =? 0)%N; [reflexivity|].
  rewrite IH, (IH _ [_]), <- app_assoc. reflexivity.
Qed.

Lemma digits_fuel_enough (k1 k2 : nat) (n : N) (acc : jsstring) :
  (0 < n)%N -> (n < 2 ^ N.of_nat k1)%N -> (n < 2 ^ N.of_nat k2)%N ->
  digits_fuel k1 n acc = digits_fuel k2 n acc.
Proof.
  revert k2 n acc. induction k1 as [|k1 IH]; intros k2 n acc Hpos H1 H2.
  - change (2 ^ N.of_nat 0)%N with 1%N in H1. lia.
  - destruct k2 as [|k2]; [change (2 ^ N.of_nat 0)%N with 1%N in H2; lia|].
    cbn [digits_fuel]. destruct (n / 10 =? 0)%N eqn:Hq; [reflexivity|].
    apply N.eqb_neq in Hq.
    rewrite Nat2N.inj_succ, N.pow_succ_r' in H1, H2.
    apply IH.
    + now apply N.neq_0_lt_0.
    + apply N.Div0.div_lt_upper_bound; lia.
    + apply N.Div0.div_lt_upper_bound; lia.
Qed.

Lemma toString_digit (n : N) : (n < 10)%N -> toString n = [(48 + n)%N].
Proof.
  intros Hn. unfold toString. cbn [digits_fuel].
  rewrite N.div_small, N.mod_small by assumption. reflexivity.
Qed.

(** The last digit comes last. *)
Lemma toString_unfold (n : N) :
  (10 <= n)%N -> toString n = toString (n / 10) ++ [(48 + n mod 10)%N].
Proof.
  intros Hn. unfold toString at 1. cbn [digits_fuel].
  assert (Hq : (0 < n / 10)%N).
  { apply N.div_str_pos. lia. }
  destruct (n / 10 =? 0)%N eqn:Hz; [apply N.eqb_eq in Hz; lia|].
  rewrite digits_fuel_acc. f_equal.
  destruct (N.log2_spec n) as [_ Hn2]; [lia|].
  destruct (N.log2_spec (n / 10) Hq) as [_ Hq2].
  rewrite N.pow_succ_r' in Hn2.
  unfold toString.
  apply digits_fuel_enough; [exact Hq| |].
  - rewrite N2Nat.id. apply N.Div0.div_lt_upper_bound; lia.
  - rewrite Nat2N.inj_succ, N2Nat.id. exact Hq2.
Qed.

Lemma toString_nonempty (n : N) : (1 <= length (toString n))%nat.
Proof.
  destruct (N.lt_ge_cases n 10) as [Hs|Hb].
  - rewrite (toString_digit n Hs). apply le_n.
  - rewrite (toString_unfold n Hb), length_app. simpl. lia.
Qed.


Lemma decimal_snoc (s : jsstring) (c : N) :
  decimal (s ++ [c]) = (10 * decimal s + (c - 48))%N.
Proof. unfold decimal. rewrite fold_left_app. reflexivity. Qed.

(** Reading the digits of a number gives the number. *)
Lemma decimal_toString (n : N) : decimal (toString n) = n.
Proof.
  induction n as [n IH] using (well_founded_induction N.lt_wf_0).
  destruct (N.lt_ge_cases n 10) as [Hs|Hb].
  - rewrite (toString_digit n Hs). unfold decimal. cbn [fold_left]. lia.
  - rewrite (toString_unfold n Hb), decimal_snoc, IH.
    + rewrite (N.add_comm 48), N.add_sub. symmetry. apply N.div_mod'.
    + apply N.div_lt; lia.
Qed.

Lemma toString_inj (a b : N) : toString a = toString b -> a = b.
Proof.
  intros Heq. rewrite <- (decimal_toString a), <- (decimal_toString b).
  now rewrite Heq.
Qed.

Lemma toString_times_10 (n : N) :
  (0 < n)%N -> toString (10 * n) = toString n ++ [48%N].
Proof.
  intros Hn. rewrite toString_unfold by lia.
  rewrite (N.mul_comm 10 n), N.div_mul, N.Div0.mod_mul by lia. reflexivity.
Qed.

Lemma padStart_2 (s : jsstring) :
  (length s = 1%nat -> padStart 2 [48%N] s = 48%N :: s)
  /\ ((2 <= length s)%nat -> padStart 2 [48%N] s = s).
Proof.
  unfold padStart. split; intros H.
  - rewrite H. reflexivity.
  - destruct (2 <=? length s)%nat eqn:E; [reflexivity|].
    apply Nat.leb_gt in E. lia.
Qed.


(** ** The texts of the recording screen *)



Lemma nearest_scaled_integer (n : N) : nearest_scaled 1 n 0 = (10 * n)%N.
Proof.
  unfold nearest_scaled.
  change (0 <=? 0)%Z with true. cbv iota zeta.
  change (10 ^ Z.of_nat 1)%Z with 10%Z. change (2 ^ 0)%Z with 1%Z.
  lia.
Qed.

(** X2.  formatDuration writes a whole number of seconds as its digits
    followed by ".0s", for every count below 10^21. *)
Theorem formatDuration_integer (seconds : N) :
  VoiceChat.formatDuration seconds
  = if (seconds <? 10 ^ 21)%N
    then Some (toString seconds ++ utf16 ".0s")
    else None.
Proof.
  unfold VoiceChat.formatDuration, toFixed_integer, fixed, at_least_1e21.
  change (0 <=? 0)%Z with true. cbv iota.
  change (2 ^ 0)%Z with 1%Z.
  change (10 ^ 21)%Z with (Z.of_N (10 ^ 21)).
  rewrite Z.mul_1_r.
  destruct (seconds <? 10 ^ 21)%N eqn:E.
  2:{ apply N.ltb_ge, N2Z.inj_le in E.
      apply Z.leb_le in E. rewrite E. reflexivity. }
  apply N.ltb_lt, N2Z.inj_lt in E.
  apply Z.leb_gt in E. rewrite E.
  rewrite nearest_scaled_integer.
  destruct (N.eq_dec seconds 0%N) as [->|Hpos]; [reflexivity|].
  rewrite toString_times_10 by lia.
  pose proof (toString_nonempty seconds) as H1.
  unfold fixed_point.
  destruct (padStart_2 (toString seconds ++ [48%N])) as [_ ->];
    [|rewrite length_app; simpl; lia].
  rewrite length_app. simpl length.
  replace (length (toString seconds) + 1 - 1)%nat
    with (length (toString seconds)) by lia.
  rewrite firstn_app, Nat.sub_diag, firstn_all, firstn_O, app_nil_r.
  rewrite skipn_app, Nat.sub_diag, skipn_all, skipn_O, app_nil_l.
  rewrite <- !app_assoc. reflexivity.
Qed.

(** ** The messages and the timeouts of a session *)

Lemma act_outcome (x : VoiceChat.session) (a : VoiceChat.action) :
  VoiceChat.outcome x (VoiceChat.act x a).
Proof.
  destruct a as [h now|i now| |].
  - unfold VoiceChat.act, VoiceChat.handleRecord, run, bind, read, settle.
    cbn [react_state trace snd fst].
    destruct (VoiceChat.isRecording h).
    + destruct (VoiceChat.stop_settles h) as [[]|e];
        [|apply VoiceChat.same_messages; [reflexivity|apply app_nil_r]].
      destruct (VoiceChat.recorded_uri h) as [[|c clip]|];
        try (apply VoiceChat.same_messages; [reflexivity|apply app_nil_r]).
      apply (VoiceChat.user_message x _
               {| VoiceChat.id := toString now; VoiceChat.uri := c :: clip;
                  VoiceChat.from := VoiceChat.user;
                  VoiceChat.durationSec :=
                    if (VoiceChat.recordingTime (VoiceChat.screen x) =? 0)%N
                    then 1%N
                    else VoiceChat.recordingTime (VoiceChat.screen x) |});
        try reflexivity.
      * cbn [VoiceChat.durationSec].
        destruct (VoiceChat.recordingTime (VoiceChat.screen x) =? 0)%N eqn:E;
          [lia|apply N.eqb_neq in E; lia].
      * discriminate.
    + destruct (VoiceChat.prepare_settles h) as [[]|e];
        apply VoiceChat.same_messages; try reflexivity; apply app_nil_r.
  - unfold VoiceChat.act.
    destruct (nth_error (VoiceChat.pending x) i) as [[u d]|] eqn:Hi;
      [|now apply VoiceChat.same_messages].
    eapply (VoiceChat.bot_message x _ i
              {| VoiceChat.id := toString (now + 1); VoiceChat.uri := u;
                 VoiceChat.from := VoiceChat.bot; VoiceChat.durationSec := d |});
      try reflexivity. exact Hi.
  - now apply VoiceChat.same_messages.
  - now apply VoiceChat.same_messages.
Qed.

Lemma recorded_more (msgs : list VoiceChat.VoiceMessage) (extra : list VoiceChat.VoiceMessage)
    (u : jsstring) (d : N) (b b' : nat) :
  (b <= b')%nat -> (b <= length msgs)%nat ->
  VoiceChat.recorded msgs u d b -> VoiceChat.recorded (msgs ++ extra) u d b'.
Proof.
  intros Hb Hlen (i & m & Hi & Hm & Hrest).
  exists i, m. split; [lia|]. split; [|exact Hrest].
  now apply lookup_app_l_Some.
Qed.

Lemma pending_without (p : list timeout_callback) (i : nat) (cb : timeout_callback) :
  nth_error p i = Some cb ->
  (length (firstn i p ++ skipn (S i) p) + 1 = length p)%nat
  /\ forall P : timeout_callback -> Prop,
       Forall P p -> P cb /\ Forall P (firstn i p ++ skipn (S i) p).
Proof.
  intros Hi.
  assert (Hlt : (i < length p)%nat) by (apply nth_error_Some; congruence).
  split.
  - rewrite length_app, length_take, length_drop. lia.
  - intros P HP. split.
    + rewrite Forall_forall in HP. apply HP.
      apply list_elem_of_In. eapply nth_error_In, Hi.
    + apply Forall_app. split; [now apply Forall_take|now apply Forall_drop].
Qed.

Lemma outcome_consistent (x x' : VoiceChat.session) :
  VoiceChat.outcome x x' -> VoiceChat.consistent x -> VoiceChat.consistent x'.
Proof.
  unfold VoiceChat.consistent. cbv zeta.
  intros Hout (Hgood & Hpend & Hcount & Hpair).
  destruct Hout as [Hm Hp | m Hm Hfrom Hd Hu Hp | i m Hi Hm Hfrom Hp];
    rewrite Hm, Hp.
  - auto.
  - split; [|split; [|split]].
    + apply Forall_app. split; [exact Hgood|]. now repeat constructor.
    + apply Forall_app. split.
      * eapply Forall_impl; [exact Hpend|]. intros [u d] Hr.
        eapply recorded_more; [| |exact Hr]; rewrite ?length_app; simpl; lia.
      * constructor; [|constructor].
        exists (length (VoiceChat.messages (VoiceChat.screen x))), m.
        rewrite length_app. simpl. split; [lia|].
        split; [|auto]. apply list_lookup_middle. reflexivity.
    + assert (Hb : VoiceChat.from_bot m = false)
        by (unfold VoiceChat.from_bot; now rewrite Hfrom).
      assert (Hus : VoiceChat.from_user m = true)
        by (unfold VoiceChat.from_user; now rewrite Hfrom).
      rewrite !List.filter_app, !length_app. cbn [List.filter].
      rewrite Hb, Hus. cbn [length]. lia.
    + intros j m' Hj Hbot.
      apply lookup_app_Some in Hj as [Hj|[Hge Hj]].
      * eapply recorded_more; [| |eapply Hpair; eassumption].
        -- lia.
        -- apply lookup_lt_Some in Hj. lia.
      * destruct (j - length (VoiceChat.messages (VoiceChat.screen x)))%nat;
          [|discriminate].
        injection Hj as <-. congruence.
  - destruct (pending_without _ _ _ Hi) as [Hlen Hall].
    destruct (Hall _ Hpend) as [Hcb Hrest]. cbv beta iota in Hcb.
    split; [|split; [|split]].
    + apply Forall_app. split; [exact Hgood|].
      constructor; [|constructor].
      destruct Hcb as (k & m' & Hk & Hm' & Hu' & <- & <-).
      rewrite Forall_forall in Hgood. apply Hgood.
      apply list_elem_of_lookup. eauto.
    + eapply Forall_impl; [exact Hrest|]. intros [u d] Hr.
      eapply recorded_more; [| |exact Hr]; rewrite ?length_app; simpl; lia.
    + assert (Hb : VoiceChat.from_bot m = true)
        by (unfold VoiceChat.from_bot; now rewrite Hfrom).
      assert (Hus : VoiceChat.from_user m = false)
        by (unfold VoiceChat.from_user; now rewrite Hfrom).
      rewrite length_app in Hlen.
      rewrite !List.filter_app, !length_app. cbn [List.filter].
      rewrite Hb, Hus. cbn [length]. lia.
    + intros j m' Hj Hbot.
      apply lookup_app_Some in Hj as [Hj|[Hge Hj]].
      * eapply recorded_more; [| |eapply Hpair; eassumption].
        -- lia.
        -- apply lookup_lt_Some in Hj. lia.
      * destruct (j - length (VoiceChat.messages (VoiceChat.screen x)))%nat eqn:Hjl;
          [|discriminate].
        injection Hj as <-.
        eapply recorded_more; [| |exact Hcb]; lia.
Qed.

Lemma after_consistent (actions : list VoiceChat.action) :
  VoiceChat.consistent (VoiceChat.after actions).
Proof.
  unfold VoiceChat.after.
  assert (Hstart : VoiceChat.consistent VoiceChat.mounted).
  { unfold VoiceChat.consistent. cbn. repeat split; try constructor.
    intros j m Hj. discriminate. }
  revert Hstart. generalize VoiceChat.mounted.
  induction actions as [|a actions IH]; intros x Hx; [exact Hx|].
  cbn [fold_left]. apply IH. eapply outcome_consistent; [apply act_outcome|exact Hx].
Qed.

(** X3.  Whatever happens in a session, every message of the list has a
    duration of one second or more and a clip URI that is not empty. *)
Theorem messages_well_formed (actions : list VoiceChat.action) :
  Forall (fun m => (1 <= VoiceChat.durationSec m)%N /\ VoiceChat.uri m <> [])
         (VoiceChat.messages (VoiceChat.screen (VoiceChat.after actions))).
Proof. exact (proj1 (after_consistent actions)). Qed.


(** X5.  Every message of the bot comes after a message of the user that
    has the same clip and the same duration. *)
Theorem bot_message_echoes (actions : list VoiceChat.action) (j : nat)
    (m : VoiceChat.VoiceMessage) :
  VoiceChat.messages (VoiceChat.screen (VoiceChat.after actions)) !! j = Some m ->
  VoiceChat.from m = VoiceChat.bot ->
  exists (i : nat) (recording : VoiceChat.VoiceMessage),
    (i < j)%nat
    /\ VoiceChat.messages (VoiceChat.screen (VoiceChat.after actions)) !! i
       = Some recording
    /\ VoiceChat.from recording = VoiceChat.user
    /\ VoiceChat.uri recording = VoiceChat.uri m
    /\ VoiceChat.durationSec recording = VoiceChat.durationSec m.
Proof.
  destruct (after_consistent actions) as (_ & _ & _ & Hpair).
  intros Hj Hbot. exact (Hpair j m Hj Hbot).
Qed.

Lemma bot_message_echoes_witness :
  let actions := [VoiceChat.press_mic (VoiceChat.stops_with (utf16 "a")) 41;
                  VoiceChat.fire 0 1041] in
  exists (i : nat) (recording : VoiceChat.VoiceMessage),
    (i < 1)%nat
    /\ VoiceChat.messages (VoiceChat.screen (VoiceChat.after actions)) !! i
       = Some recording
    /\ VoiceChat.uri recording = utf16 "a".
Proof.
  intros actions.
  destruct (bot_message_echoes actions 1
              {| VoiceChat.id := utf16 "1042"; VoiceChat.uri := utf16 "a";
                 VoiceChat.from := VoiceChat.bot; VoiceChat.durationSec := 1 |}
              eq_refl eq_refl) as (i & recording & Hi & Hm & _ & Hu & _).
  exists i, recording. auto.
Defined.

(** What a press does when the recorder stops with a clip. *)
Lemma press_stops_with (x : VoiceChat.session) (clip : jsstring) (now : N) :
  clip <> [] ->
  let m := {| VoiceChat.id := toString now; VoiceChat.uri := clip;
              VoiceChat.from := VoiceChat.user;
              VoiceChat.durationSec :=
                N.max 1 (VoiceChat.recordingTime (VoiceChat.screen x)) |} in
  VoiceChat.act x (VoiceChat.press_mic (VoiceChat.stops_with clip) now)
  = {| VoiceChat.screen :=
         VoiceChat.setMessages (fun prev => prev ++ [m]) (VoiceChat.screen x);
       VoiceChat.pending :=
         VoiceChat.pending x
         ++ [appendBotMessage clip
               (N.max 1 (VoiceChat.recordingTime (VoiceChat.screen x)))] |}.
Proof.
  intros Hclip m. subst m.
  assert (Hd : (if (VoiceChat.recordingTime (VoiceChat.screen x) =? 0)%N
                then 1%N else VoiceChat.recordingTime (VoiceChat.screen x))
               = N.max 1 (VoiceChat.recordingTime (VoiceChat.screen x))).
  { destruct (VoiceChat.recordingTime (VoiceChat.screen x) =? 0)%N eqn:E.
    - apply N.eqb_eq in E. rewrite E. reflexivity.
    - apply N.eqb_neq in E. lia. }
  destruct clip as [|c clip]; [contradiction|].
  unfold VoiceChat.act, VoiceChat.handleRecord, VoiceChat.stops_with,
    run, bind, read, settle.
  cbn [react_state trace snd fst VoiceChat.isRecording VoiceChat.stop_settles
       VoiceChat.recorded_uri string_truthy].
  rewrite Hd. reflexivity.
Qed.

(** X6.  The identifiers that the list uses as keys are not always
    different: a recording stopped at [t], its timeout run one second
    later, and a next recording stopped one millisecond after that put two
    messages with the same id at the end of the list. *)
Theorem message_ids_collide (x : VoiceChat.session) (t : N)
    (clip clip' : jsstring) :
  clip <> [] -> clip' <> [] ->
  let x1 := VoiceChat.act x (VoiceChat.press_mic (VoiceChat.stops_with clip) t) in
  let x2 := VoiceChat.act x1
              (VoiceChat.fire (length (VoiceChat.pending x)) (t + 1000)) in
  let x3 := VoiceChat.act x2
              (VoiceChat.press_mic (VoiceChat.stops_with clip') (t + 1001)) in
  exists first echo second : VoiceChat.VoiceMessage,
    VoiceChat.messages (VoiceChat.screen x3)
      = VoiceChat.messages (VoiceChat.screen x) ++ [first; echo; second]
    /\ (VoiceChat.from first = VoiceChat.user /\ VoiceChat.uri first = clip)
    /\ (VoiceChat.from echo = VoiceChat.bot /\ VoiceChat.uri echo = clip)
    /\ (VoiceChat.from second = VoiceChat.user /\ VoiceChat.uri second = clip')
    /\ VoiceChat.keyExtractor echo = VoiceChat.keyExtractor second
    /\ ~ NoDup (map VoiceChat.keyExtractor
                  (VoiceChat.messages (VoiceChat.screen x3))).
Proof.
  intros Hclip Hclip' x1 x2 x3.
  assert (H1 : x1 = _) by apply (press_stops_with x clip t Hclip).
  cbv zeta in H1.
  assert (Hfire : nth_error (VoiceChat.pending x1) (length (VoiceChat.pending x))
                  = Some (appendBotMessage clip
                            (N.max 1 (VoiceChat.recordingTime (VoiceChat.screen x))))).
  { rewrite H1. cbn [VoiceChat.pending].
    rewrite nth_error_app2, Nat.sub_diag by lia. reflexivity. }
  assert (H3 : x3 = _) by apply (press_stops_with x2 clip' (t + 1001) Hclip').
  cbv zeta in H3.
  assert (Hm2 : VoiceChat.messages (VoiceChat.screen x2)
                = VoiceChat.messages (VoiceChat.screen x1)
                  ++ [{| VoiceChat.id := toString (t + 1000 + 1);
                         VoiceChat.uri := clip; VoiceChat.from := VoiceChat.bot;
                         VoiceChat.durationSec :=
                           N.max 1 (VoiceChat.recordingTime (VoiceChat.screen x)) |}]).
  { unfold x2, VoiceChat.act. rewrite Hfire. reflexivity. }
  assert (Hm3 : VoiceChat.messages (VoiceChat.screen x3)
                = VoiceChat.messages (VoiceChat.screen x2)
                  ++ [{| VoiceChat.id := toString (t + 1001);
                         VoiceChat.uri := clip'; VoiceChat.from := VoiceChat.user;
                         VoiceChat.durationSec :=
                           N.max 1 (VoiceChat.recordingTime (VoiceChat.screen x2)) |}]).
  { rewrite H3. reflexivity. }
  assert (Hm1 : VoiceChat.messages (VoiceChat.screen x1)
                = VoiceChat.messages (VoiceChat.screen x)
                  ++ [{| VoiceChat.id := toString t; VoiceChat.uri := clip;
                         VoiceChat.from := VoiceChat.user;
                         VoiceChat.durationSec :=
                           N.max 1 (VoiceChat.recordingTime (VoiceChat.screen x)) |}]).
  { rewrite H1. reflexivity. }
  assert (Hkey : toString (t + 1000 + 1) = toString (t + 1001)).
  { f_equal. lia. }
  do 3 eexists.
  split.
  { rewrite Hm3, Hm2, Hm1, <- !app_assoc. reflexivity. }
  split; [split; reflexivity|]. split; [split; reflexivity|].
  split; [split; reflexivity|]. split; [exact Hkey|].
  rewrite Hm3, Hm2, Hm1, <- !app_assoc, map_app. cbn [map app].
  unfold VoiceChat.keyExtractor. cbn [VoiceChat.id]. rewrite Hkey.
  intros Hnodup. apply NoDup_app in Hnodup as (_ & _ & Hnodup).
  apply NoDup_cons in Hnodup as [_ Hnodup].
  apply NoDup_cons in Hnodup as [Hnotin _].
  apply Hnotin. left.
Qed.

Lemma message_ids_collide_witness :
  let x3 := VoiceChat.after
              [VoiceChat.press_mic (VoiceChat.stops_with (utf16 "a")) 0;
               VoiceChat.fire 0 1000;
               VoiceChat.press_mic (VoiceChat.stops_with (utf16 "b")) 1001] in
  ~ NoDup (map VoiceChat.keyExtractor (VoiceChat.messages (VoiceChat.screen x3))).
Proof.
  destruct (message_ids_collide VoiceChat.mounted 0 (utf16 "a") (utf16 "b"))
    as (first & echo & second & _ & _ & _ & _ & _ & Hdup).
  - discriminate.
  - discriminate.
  - exact Hdup.
Defined.




(** X8.  handleRecord has no handler for a rejection: it rejects exactly
    when the promise it awaits does (stop while recording, prepare
    otherwise).  A rejected or clip-less stop adds no message and sets no
    timeout; record is called exactly when prepare succeeded; and the
    recording time is never changed by handleRecord. *)
Theorem handleRecord_outcomes (h : VoiceChat.recorder) (now : N)
    (s : VoiceChat.state) :
  let r := run (VoiceChat.handleRecord h now) s in
  let awaited := if VoiceChat.isRecording h then VoiceChat.stop_settles h
                 else VoiceChat.prepare_settles h in
  fst r = awaited
  /\ VoiceChat.recordingTime (react_state (snd r)) = VoiceChat.recordingTime s
  /\ (VoiceChat.timeouts_set (calls (snd r)) = []
      <-> VoiceChat.messages (react_state (snd r)) = VoiceChat.messages s)
  /\ (In audioRecorder_record (calls (snd r))
      <-> VoiceChat.isRecording h = false /\ VoiceChat.prepare_settles h = Ok tt)
  /\ (VoiceChat.messages (react_state (snd r)) <> VoiceChat.messages s
      <-> VoiceChat.isRecording h = true /\ VoiceChat.stop_settles h = Ok tt
          /\ exists clip, VoiceChat.recorded_uri h = Some clip /\ clip <> []).
Proof.
  unfold VoiceChat.handleRecord, run, bind, read, settle.
  cbn [react_state trace snd fst].
  assert (Hgrow : forall (l : list VoiceChat.VoiceMessage) m, l ++ [m] <> l).
  { intros l m Heq. apply (f_equal length) in Heq.
    rewrite length_app in Heq. simpl in Heq. lia. }
  destruct (VoiceChat.isRecording h).
  - destruct (VoiceChat.stop_settles h) as [[]|e].
    + destruct (VoiceChat.recorded_uri h) as [[|c clip]|];
        cbn; (split; [reflexivity|]); (split; [reflexivity|]).
      * split; [tauto|]. split; [intuition discriminate|].
        split; [congruence|]. intros (_ & _ & clip & [= <-] & Hne). congruence.
      * split; [split; [discriminate|intros Hm; now apply Hgrow in Hm]|].
        split; [intuition discriminate|].
        split; [|intros _; apply Hgrow].
        intros _. repeat split. exists (c :: clip). split; [reflexivity|discriminate].
      * split; [tauto|]. split; [intuition discriminate|].
        split; [congruence|]. intros (_ & _ & clip & [=] & _).
    + cbn. split; [reflexivity|]. split; [reflexivity|].
      split; [tauto|]. split; [intuition discriminate|].
      split; [congruence|]. intros (_ & [=] & _).
  - destruct (VoiceChat.prepare_settles h) as [[]|e]; cbn;
      (split; [reflexivity|]); (split; [reflexivity|]); (split; [tauto|]).
    + split; [intuition|]. split; [congruence|]. intros ([=] & _).
    + split; [intuition discriminate|]. split; [congruence|]. intros ([=] & _).
Qed.

(** ** The voices of the speech screen *)

Lemma isJapanese_startsWith (v : Speech.Voice) :
  Speech.isJapanese v = startsWith (Speech.voice_language v) (utf16 "ja").
Proof.
  unfold Speech.isJapanese.
  destruct (bool_decide_reflect (Speech.voice_language v = utf16 "ja-JP")) as [->|_].
  - reflexivity.
  - apply orb_false_r.
Qed.

Lemma find_isJapanese (voices : list Speech.Voice) :
  List.find Speech.isJapanese voices
  = List.find (fun v => startsWith (Speech.voice_language v) (utf16 "ja")) voices.
Proof.
  induction voices as [|v voices IH]; [reflexivity|].
  cbn [List.find]. rewrite isJapanese_startsWith, IH. reflexivity.
Qed.

Lemma loadVoices_state (voices : list Speech.Voice) (s : Speech.state) :
  react_state (snd (run (Speech.loadVoices (Ok voices)) s))
  = match List.find (fun v => startsWith (Speech.voice_language v) (utf16 "ja"))
                    voices with
    | Some v => Speech.setSelectedVoice (Some (Speech.identifier v))
                  (Speech.setAvailableVoices voices s)
    | None => Speech.setAvailableVoices voices s
    end.
Proof.
  unfold Speech.loadVoices, run, try_catch, bind, settle. cbn [fst snd].
  rewrite find_isJapanese. now destruct (List.find _ voices).
Qed.

Lemma shownVoices_firstn (s : Speech.state) :
  Speech.shownVoices s
  = firstn 10 (List.filter (Speech.listed s) (Speech.availableVoices s)).
Proof. unfold Speech.shownVoices. now destruct (Speech.availableVoices s). Qed.

(** X9.  The effect that loads the voices never rejects.  When the host
    fails, it logs the error and leaves the state as it is.  When the host
    answers, the list is stored and the voice selected is the first one in
    the order of the host whose language starts with "ja"; without such a
    voice the selection is kept.  The comparison with "ja-JP" in the source
    changes nothing. *)
Theorem loadVoices_selects (available : result (list Speech.Voice))
    (s : Speech.state) :
  let w := snd (run (Speech.loadVoices available) s) in
  fst (run (Speech.loadVoices available) s) = Ok tt
  /\ filter is_alert (calls w) = []
  /\ match available with
     | Throw e =>
       react_state w = s
       /\ calls w = [console_error (utf16 "Error loading voices:") e]
     | Ok voices =>
       calls w = []
       /\ Speech.availableVoices (react_state w) = voices
       /\ Speech.selectedVoice (react_state w)
          = match List.find (fun v => startsWith (Speech.voice_language v)
                                                 (utf16 "ja")) voices with
            | Some v => Some (Speech.identifier v)
            | None => Speech.selectedVoice s
            end
       /\ (Speech.text (react_state w), Speech.language (react_state w),
           Speech.pitch (react_state w), Speech.rate (react_state w),
           Speech.isSpeaking (react_state w))
          = (Speech.text s, Speech.language s, Speech.pitch s, Speech.rate s,
             Speech.isSpeaking s)
     end.
Proof.
  unfold Speech.loadVoices, run, try_catch, bind, settle.
  destruct available as [voices|e]; cbn [fst snd].
  - rewrite find_isJapanese.
    destruct (List.find _ voices) as [v|]; repeat split.
  - repeat split.
Qed.

Lemma filter_sublist {A} (f : A -> bool) (l : list A) :
  sublist (List.filter f l) l.
Proof.
  induction l as [|a l IH]; [constructor|].
  cbn [List.filter]. destruct (f a); now constructor.
Qed.

(** X10.  The list of voices on the screen shows at most ten voices, in the
    order of the host and without repeating or inventing one, and each of
    them has a language that starts with what the language field holds
    before its first hyphen.  When ten or fewer voices match, all of them
    are shown. *)
Theorem shownVoices_listed (s : Speech.state) :
  let matching := List.filter (Speech.listed s) (Speech.availableVoices s) in
  (length (Speech.shownVoices s) <= 10)%nat
  /\ sublist (Speech.shownVoices s) (Speech.availableVoices s)
  /\ Forall (fun v => startsWith (Speech.voice_language v)
                                 (split_0 45 (Speech.language s)) = true)
            (Speech.shownVoices s)
  /\ Speech.shownVoices s = firstn 10 matching
  /\ (if (length matching <=? 10)%nat then Speech.shownVoices s = matching
      else length (Speech.shownVoices s) = 10%nat).
Proof.
  intros matching.
  assert (Hshown : Speech.shownVoices s = firstn 10 matching)
    by apply shownVoices_firstn.
  rewrite Hshown.
  split; [rewrite length_take; lia|].
  split; [etrans; [apply sublist_take|apply filter_sublist]|].
  split.
  { apply Forall_take. apply Forall_forall. intros v Hv.
    apply list_elem_of_In, filter_In in Hv as [_ Hv]. exact Hv. }
  split; [reflexivity|].
  destruct (length matching <=? 10)%nat eqn:E.
  - apply Nat.leb_le in E. now apply firstn_all2.
  - apply Nat.leb_gt in E. rewrite length_take. lia.
Qed.

Lemma find_head_filter {A} (f : A -> bool) (l : list A) :
  List.find f l = head (List.filter f l).
Proof.
  induction l as [|a l IH]; [reflexivity|].
  cbn [List.find List.filter]. now destruct (f a).
Qed.

(** X11.  While the language field holds "ja-JP", the voice that the effect
    has selected is the one at the head of the list on the screen; and when
    the list is empty, the effect has selected nothing. *)
Theorem default_voice_listed_first (voices : list Speech.Voice) (s : Speech.state) :
  Speech.language s = utf16 "ja-JP" ->
  let s' := react_state (snd (run (Speech.loadVoices (Ok voices)) s)) in
  match Speech.shownVoices s' with
  | v :: _ => Speech.selectedVoice s' = Some (Speech.identifier v)
  | [] => Speech.selectedVoice s' = Speech.selectedVoice s
  end.
Proof.
  intros Hlang s'.
  pose proof (loadVoices_state voices s) as Hs'. fold s' in Hs'.
  rewrite find_head_filter in Hs'.
  assert (Hl : Speech.language s' = utf16 "ja-JP").
  { rewrite Hs'. destruct (head _); exact Hlang. }
  assert (Hav : Speech.availableVoices s' = voices).
  { rewrite Hs'. now destruct (head _). }
  assert (Hf : List.filter (Speech.listed s') voices
               = List.filter (fun v => startsWith (Speech.voice_language v)
                                                  (utf16 "ja")) voices).
  { apply filter_ext. intros v. unfold Speech.listed. rewrite Hl. reflexivity. }
  rewrite shownVoices_firstn, Hav, Hf, Hs'.
  destruct (List.filter _ voices) as [|v rest]; reflexivity.
Qed.

Lemma default_voice_listed_first_witness :
  let kyoko := {| Speech.identifier := utf16 "com.apple.voice.Kyoko";
                  Speech.name := utf16 "Kyoko";
                  Speech.voice_language := utf16 "ja-JP";
                  Speech.quality := None |} in
  let alex := {| Speech.identifier := utf16 "com.apple.voice.Alex";
                 Speech.name := utf16 "Alex";
                 Speech.voice_language := utf16 "en-US";
                 Speech.quality := None |} in
  let s' := react_state (snd (run (Speech.loadVoices (Ok [alex; kyoko]))
                                  Speech.initial)) in
  Speech.shownVoices s' = [kyoko]
  /\ Speech.selectedVoice s' = Some (utf16 "com.apple.voice.Kyoko").
Proof.
  intros kyoko alex s'. split; [reflexivity|].
  exact (default_voice_listed_first [alex; kyoko] Speech.initial eq_refl).
Defined.

(** ** The labels of pitch and rate *)

Lemma settings_track : forallb Speech.tracks_tenths Speech.settings = true.
Proof. vm_compute. reflexivity. Qed.

Lemma setting_tracks (x : number) :
  In x Speech.settings ->
  toFixed 1 x = Chars (Speech.tenths_label (Speech.tenths_of x))
  /\ Speech.tenths_of (Speech.decrement x) = Z.max 5 (Speech.tenths_of x - 1)
  /\ Speech.tenths_of (Speech.increment x) = Z.min 20 (Speech.tenths_of x + 1).
Proof.
  intros Hx. pose proof settings_track as Hall.
  rewrite forallb_forall in Hall. apply Hall in Hx.
  unfold Speech.tracks_tenths in Hx.
  apply andb_prop in Hx as [Hx Hi]. apply andb_prop in Hx as [Hl Hd].
  apply Z.eqb_eq in Hi, Hd.
  split; [|split; assumption].
  destruct (toFixed 1 x) as [label| |]; try discriminate.
  apply bool_decide_eq_true in Hl. now subst.
Qed.

Lemma press_fields (s : Speech.state) (b : Speech.button) :
  Speech.pitch (Speech.press s b)
  = match b with
    | Speech.pitch_minus => Speech.decrement (Speech.pitch s)
    | Speech.pitch_plus => Speech.increment (Speech.pitch s)
    | _ => Speech.pitch s
    end
  /\ Speech.rate (Speech.press s b)
     = match b with
       | Speech.rate_minus => Speech.decrement (Speech.rate s)
       | Speech.rate_plus => Speech.increment (Speech.rate s)
       | _ => Speech.rate s
       end
  /\ Speech.text (Speech.press s b) = Speech.text s
  /\ Speech.language (Speech.press s b) = Speech.language s
  /\ Speech.selectedVoice (Speech.press s b) = Speech.selectedVoice s.
Proof. destruct b; repeat split. Qed.

Lemma presses_track (bs : list Speech.button) (s : Speech.state) (t : Z * Z) :
  Speech.settled s ->
  Speech.tenths_of (Speech.pitch s) = fst t ->
  Speech.tenths_of (Speech.rate s) = snd t ->
  (5 <= fst t <= 20 /\ 5 <= snd t <= 20)%Z ->
  let s' := Speech.presses bs s in
  let t' := fold_left Speech.press_tenths bs t in
  Speech.settled s'
  /\ Speech.tenths_of (Speech.pitch s') = fst t'
  /\ Speech.tenths_of (Speech.rate s') = snd t'
  /\ (5 <= fst t' <= 20 /\ 5 <= snd t' <= 20)%Z.
Proof.
  revert s t. induction bs as [|b bs IH]; intros s t Hs Hp Hr Ht.
  { cbv zeta. unfold Speech.presses. cbn [fold_left]. auto. }
  unfold Speech.presses. cbn [fold_left]. apply IH.
  - now apply press_settled.
  - destruct Hs as [Hps Hrs].
    destruct (setting_tracks _ Hps) as (_ & Hd & Hi).
    destruct (press_fields s b) as (-> & _).
    destruct b; cbn [Speech.press_tenths fst snd];
      [rewrite <- Hp; exact Hd | rewrite <- Hp; exact Hi | exact Hp | exact Hp].
  - destruct Hs as [Hps Hrs].
    destruct (setting_tracks _ Hrs) as (_ & Hd & Hi).
    destruct (press_fields s b) as (_ & -> & _).
    destruct b; cbn [Speech.press_tenths fst snd];
      [exact Hr | exact Hr | rewrite <- Hr; exact Hd | rewrite <- Hr; exact Hi].
  - destruct b; cbn [Speech.press_tenths fst snd]; lia.
Qed.

(** X12.  The labels of pitch and rate never show the rounding of the
    binary64 values: after any sequence of presses each label is the count
    of tenths that exact arithmetic gives (a minus button one tenth down,
    not below 0.5; a plus button one tenth up, not above 2.0; from 1.0),
    written with one decimal. *)
Theorem labels_in_tenths (bs : list Speech.button) :
  let s := Speech.presses bs Speech.initial in
  let t := Speech.tenths_after bs in
  Speech.pitchLabel s = Chars (Speech.tenths_label (fst t))
  /\ Speech.rateLabel s = Chars (Speech.tenths_label (snd t))
  /\ (5 <= fst t <= 20 /\ 5 <= snd t <= 20)%Z.
Proof.
  destruct (presses_track bs Speech.initial (10, 10)%Z)
    as ([Hps Hrs] & Hp & Hr & Ht).
  - split; apply settings_initial.
  - vm_compute. reflexivity.
  - vm_compute. reflexivity.
  - cbn [fst snd]. lia.
  - cbv zeta. unfold Speech.pitchLabel, Speech.rateLabel, Speech.tenths_after.
    destruct (setting_tracks _ Hps) as (-> & _).
    destruct (setting_tracks _ Hrs) as (-> & _).
    rewrite Hp, Hr. split; [reflexivity|]. split; [reflexivity|exact Ht].
Qed.

(** The label after ten presses of pitch - and six of pitch + is "1.1",
    though the value is 1.0999999999999999. *)
Example label_after_rounding :
  Speech.pitchLabel (Speech.presses
    (repeat Speech.pitch_minus 10 ++ repeat Speech.pitch_plus 6) Speech.initial)
  = Chars (utf16 "1.1").
Proof. vm_compute. reflexivity. Qed.

(** X13.  Whatever buttons were pressed before, a call of Speech.speak by
    handleSpeak carries a pitch and a rate between 0.5 and 2.0, together
    with the text, the language and the voice of the screen. *)
Theorem handleSpeak_settings_in_range (bs : list Speech.button) (s : Speech.state) :
  Speech.settled s ->
  blank (Speech.text s) = false ->
  let s' := Speech.presses bs s in
  exists options : speak_options,
    calls (snd (run Speech.handleSpeak s')) = [Speech_speak (Speech.text s) options]
    /\ Speech.in_range (pitch options) = true
    /\ Speech.in_range (rate options) = true
    /\ language options = Speech.language s
    /\ voice options = Speech.selectedVoice s.
Proof.
  intros Hs Hb s'.
  assert (Hkeep : forall bs0 s0, Speech.text (Speech.presses bs0 s0) = Speech.text s0
            /\ Speech.language (Speech.presses bs0 s0) = Speech.language s0
            /\ Speech.selectedVoice (Speech.presses bs0 s0) = Speech.selectedVoice s0).
  { clear. induction bs0 as [|b bs0 IH]; intros s0; [repeat split|].
    unfold Speech.presses in *. cbn [fold_left].
    destruct (IH (Speech.press s0 b)) as (-> & -> & ->).
    destruct (press_fields s0 b) as (_ & _ & -> & -> & ->). repeat split. }
  destruct (Hkeep bs s) as (Ht & Hl & Hv). fold s' in Ht, Hl, Hv.
  destruct (presses_settled bs s Hs) as [Hp Hr]. fold s' in Hp, Hr.
  pose proof settings_in_range as Hall. rewrite forallb_forall in Hall.
  eexists. split.
  - rewrite (handleSpeak_speaks s') by congruence. rewrite Ht. reflexivity.
  - cbn [pitch rate language voice].
    split; [apply Hall, Hp|]. split; [apply Hall, Hr|].
    split; [exact Hl|exact Hv].
Qed.

Lemma handleSpeak_settings_in_range_witness :
  exists options : speak_options,
    calls (snd (run Speech.handleSpeak
                  (Speech.presses (repeat Speech.rate_plus 12) Speech.initial)))
    = [Speech_speak (Speech.text Speech.initial) options]
    /\ rate options = Speech.n2_0.
Proof.
  destruct (handleSpeak_settings_in_range (repeat Speech.rate_plus 12)
              Speech.initial)
    as (options & Hcalls & _).
  - split; apply settings_initial.
  - reflexivity.
  - exists options. split; [exact Hcalls|].
    cbv zeta in Hcalls. vm_compute in Hcalls.
    injection Hcalls as <-. vm_compute. reflexivity.
Defined.

(** ** One press of the generate button *)

Lemma handleGenerate_blocked (net : network) (s : Gemini.state) :
  blank (Gemini.prompt s) || blank (Gemini.apiKey s) = true ->
  run (Gemini.handleGenerate net) s
  = (Ok tt,
     World s [Call (Alert_alert Gemini.Error_title
                      (Chars (if blank (Gemini.prompt s) then Gemini.no_prompt
                              else Gemini.no_key)))]).
Proof.
  intros Hb. unfold Gemini.handleGenerate, run, bind, read.
  cbn [react_state trace fst snd]. rewrite !trim_truthy.
  destruct (blank (Gemini.prompt s)); [reflexivity|].
  cbn [orb] in Hb. rewrite Hb. reflexivity.
Qed.

(** X14.  handleGenerate never rejects, whatever the network does.  It
    calls fetch once when prompt and key are there and not at all
    otherwise, and it shows at most one alert.  The request is a POST that
    carries the key as typed in the x-goog-api-key header and the prompt as
    typed at contents[0].parts[0].text of its body: what is trimmed for the
    check is not what is sent. *)
Theorem handleGenerate_one_request (net : network) (s : Gemini.state) :
  let r := run (Gemini.handleGenerate net) s in
  fst r = Ok tt
  /\ filter is_fetch (calls (snd r))
     = (if blank (Gemini.prompt s) || blank (Gemini.apiKey s) then []
        else [fetch Gemini.GEMINI_API_URL (Gemini.request s)])
  /\ (length (filter is_alert (calls (snd r))) <= 1)%nat
  /\ method (Gemini.request s) = utf16 "POST"
  /\ In (utf16 "x-goog-api-key", Gemini.apiKey s) (headers (Gemini.request s))
  /\ (contents ← Gemini.json_member (utf16 "contents") (body (Gemini.request s));
      content ← Gemini.json_element 0 contents;
      parts ← Gemini.json_member (utf16 "parts") content;
      part ← Gemini.json_element 0 parts;
      Gemini.json_member (utf16 "text") part)
     = Some (JString (Gemini.prompt s)).
Proof.
  cbv zeta.
  assert (Hrun : fst (run (Gemini.handleGenerate net) s) = Ok tt
    /\ filter is_fetch (calls (snd (run (Gemini.handleGenerate net) s)))
       = (if blank (Gemini.prompt s) || blank (Gemini.apiKey s) then []
          else [fetch Gemini.GEMINI_API_URL (Gemini.request s)])
    /\ (length (filter is_alert (calls (snd (run (Gemini.handleGenerate net) s))))
        <= 1)%nat).
  { destruct (blank (Gemini.prompt s) || blank (Gemini.apiKey s)) eqn:Hb.
    - rewrite (handleGenerate_blocked net s Hb). repeat split. apply le_n.
    - apply orb_false_elim in Hb as [Hp Hk].
      rewrite (handleGenerate_ready net s Hp Hk).
      destruct (net Gemini.GEMINI_API_URL (Gemini.request s)) as [r|e];
        [|repeat split; apply le_n].
      destruct (ok r).
      + destruct (json_body r) as [data|e]; [|repeat split; apply le_n].
        destruct (Gemini.text_of data) as [found|e];
          repeat split; try apply le_n. apply Nat.le_0_l.
      + destruct (Gemini.message_of _) as [message|e];
          [|repeat split; apply le_n].
        destruct (new_Error _) as [e|e]; repeat split; apply le_n. }
  destruct Hrun as (H1 & H2 & H3).
  split; [exact H1|]. split; [exact H2|]. split; [exact H3|].
  split; [reflexivity|]. split; [right; left; reflexivity|reflexivity].
Qed.

(** X15.  What a generation leaves behind does not depend on the text
    that was displayed before, nor on the generating flag: with the same
    prompt, key and network, the final state and the calls are the same. *)
Theorem handleGenerate_forgets (net : network) (s : Gemini.state)
    (previous : json) (flag : bool) :
  blank (Gemini.prompt s) = false ->
  blank (Gemini.apiKey s) = false ->
  let s' := Gemini.setGeneratedText previous (Gemini.setIsGenerating flag s) in
  react_state (snd (run (Gemini.handleGenerate net) s'))
    = react_state (snd (run (Gemini.handleGenerate net) s))
  /\ calls (snd (run (Gemini.handleGenerate net) s'))
     = calls (snd (run (Gemini.handleGenerate net) s)).
Proof.
  intros Hp Hk s'.
  rewrite (handleGenerate_ready net s Hp Hk).
  rewrite (handleGenerate_ready net s' Hp Hk).
  change (Gemini.request s') with (Gemini.request s).
  destruct (net Gemini.GEMINI_API_URL (Gemini.request s)) as [r|e];
    [|split; reflexivity].
  destruct (ok r).
  - destruct (json_body r) as [data|e]; [|split; reflexivity].
    destruct (Gemini.text_of data) as [found|e]; split; reflexivity.
  - destruct (Gemini.message_of _) as [message|e]; [|split; reflexivity].
    destruct (new_Error _) as [e|e]; split; reflexivity.
Qed.

Lemma handleGenerate_forgets_witness :
  let net : network :=
    fun _ _ => Throw (ErrorInstance (Chars (utf16 "Network request failed"))) in
  let s := {| Gemini.prompt := utf16 "hi"; Gemini.apiKey := utf16 "key";
              Gemini.generatedText := JString [];
              Gemini.isGenerating := false; Gemini.isSpeaking := false |} in
  Gemini.generatedText
    (react_state (snd (run (Gemini.handleGenerate net)
       (Gemini.setGeneratedText (JString (utf16 "old"))
          (Gemini.setIsGenerating true s)))))
  = JString [].
Proof.
  intros net s.
  destruct (handleGenerate_forgets net s (JString (utf16 "old")) true
              eq_refl eq_refl) as [Hstate _].
  cbv zeta in Hstate. rewrite Hstate. reflexivity.
Defined.

(** ** Generate, then speak *)

Lemma handleSpeak_by_text (g : Gemini.state) :
  run Gemini.handleSpeak g
  = match Gemini.generatedText g with
    | JString t =>
      (Ok tt,
       World g [Call (if blank t
                      then Alert_alert Gemini.Error_title
                             (Chars Gemini.nothing_to_speak)
                      else Speech_speak t
                             {| language := utf16 "ja-JP"; pitch := lit 1 0;
                                rate := lit 1 0; voice := None |})])
    | _ => (Throw (TypeError NoTrim), World g [])
    end.
Proof.
  unfold Gemini.handleSpeak, run, bind, read. cbn [react_state trace fst snd].
  destruct (Gemini.generatedText g) as [| | |t| |]; try reflexivity.
  rewrite trim_truthy. now destruct (blank t).
Qed.

Lemma fallback_not_blank : blank Gemini.fallback = false.
Proof. vm_compute. reflexivity. Qed.

(** X16.  What the speak button does after a successful generation.  When
    the response has no text field, or a falsy one, handleSpeak reads the
    fallback message aloud.  A text that is a string is spoken as it is,
    unless it holds white space only: then it is displayed, and the button
    answers that there is nothing to read.  A text that is a number, true,
    an array or an object is stored as it is, and the button throws a
    TypeError without alert and without speech. *)
Theorem generate_then_speak (net : network) (s : Gemini.state)
    (r : response) (data : json) :
  blank (Gemini.prompt s) = false ->
  blank (Gemini.apiKey s) = false ->
  net Gemini.GEMINI_API_URL (Gemini.request s) = Ok r ->
  ok r = true ->
  json_body r = Ok data ->
  data <> JNull ->
  let g := react_state (snd (run (Gemini.handleGenerate net) s)) in
  let spoken := calls (snd (run Gemini.handleSpeak g)) in
  let options := {| language := utf16 "ja-JP"; pitch := lit 1 0;
                    rate := lit 1 0; voice := None |} in
  exists found,
    Gemini.text_of data = Ok found
    /\ match found with
       | None => spoken = [Speech_speak Gemini.fallback options]
       | Some v =>
         if truthy v then
           match v with
           | JString t =>
             Gemini.generatedText g = JString t
             /\ spoken = if blank t
                         then [Alert_alert Gemini.Error_title
                                 (Chars Gemini.nothing_to_speak)]
                         else [Speech_speak t options]
           | _ =>
             Gemini.generatedText g = v
             /\ fst (run Gemini.handleSpeak g) = Throw (TypeError NoTrim)
             /\ spoken = []
           end
         else spoken = [Speech_speak Gemini.fallback options]
       end.
Proof.
  intros Hp Hk Hnet Hok Hbody Hdata g spoken options.
  destruct (handleGenerate_success_body net s r data Hp Hk Hnet Hok Hbody Hdata)
    as (found & Hfound & _ & Htext & _).
  cbv zeta in Htext. fold g in Htext.
  exists found. split; [exact Hfound|].
  unfold spoken. rewrite (handleSpeak_by_text g), Htext.
  destruct found as [v|].
  - destruct (truthy v) eqn:Hv.
    + destruct v as [|b|x|t| |]; try discriminate;
        try (repeat split; reflexivity).
      split; [reflexivity|]. now destruct (blank t).
    + cbn [calls trace flat_map]. rewrite fallback_not_blank. reflexivity.
  - cbn [calls trace flat_map]. rewrite fallback_not_blank. reflexivity.
Qed.

Lemma generate_then_speak_witness :
  let s := {| Gemini.prompt := utf16 "hi"; Gemini.apiKey := utf16 "key";
              Gemini.generatedText := JString [];
              Gemini.isGenerating := false; Gemini.isSpeaking := false |} in
  let net : network :=
    fun _ _ => Ok {| ok := true; status := 200; json_body := Ok (JObject []) |} in
  let g := react_state (snd (run (Gemini.handleGenerate net) s)) in
  calls (snd (run Gemini.handleSpeak g))
  = [Speech_speak Gemini.fallback
       {| language := utf16 "ja-JP"; pitch := lit 1 0; rate := lit 1 0;
          voice := None |}].
Proof.
  intros s net g.
  destruct (generate_then_speak net s
              {| ok := true; status := 200; json_body := Ok (JObject []) |}
              (JObject []) eq_refl eq_refl eq_refl eq_refl eq_refl)
    as (found & Hfound & Hspoken).
  - discriminate.
  - injection Hfound as <-. exact Hspoken.
Defined.

(** X17.  After a generation that failed, and after the clear button, the
    speak button answers with the alert that there is nothing to read, and
    Speech.speak is not called. *)
Theorem nothing_to_speak_after (net : network) (s : Gemini.state) :
  blank (Gemini.prompt s) = false ->
  blank (Gemini.apiKey s) = false ->
  (forall r, net Gemini.GEMINI_API_URL (Gemini.request s) = Ok r -> ok r = false) ->
  let failed := react_state (snd (run (Gemini.handleGenerate net) s)) in
  let cleared := react_state (snd (run Gemini.handleClear s)) in
  calls (snd (run Gemini.handleSpeak failed))
    = [Alert_alert Gemini.Error_title (Chars Gemini.nothing_to_speak)]
  /\ calls (snd (run Gemini.handleSpeak cleared))
     = [Alert_alert Gemini.Error_title (Chars Gemini.nothing_to_speak)]
  /\ calls (snd (run Gemini.handleClear s)) = [Speech_stop].
Proof.
  intros Hp Hk Hfail failed cleared.
  assert (Hf : Gemini.generatedText failed = JString []).
  { unfold failed. rewrite (handleGenerate_ready net s Hp Hk).
    destruct (net Gemini.GEMINI_API_URL (Gemini.request s)) as [r|e];
      [|reflexivity].
    rewrite (Hfail r eq_refl).
    destruct (Gemini.message_of _) as [message|e]; [|reflexivity].
    destruct (new_Error _) as [e|e]; reflexivity. }
  rewrite (handleSpeak_by_text failed), Hf.
  split; [reflexivity|]. split; reflexivity.
Qed.

Lemma nothing_to_speak_after_witness :
  let s := {| Gemini.prompt := utf16 "hi"; Gemini.apiKey := utf16 "key";
              Gemini.generatedText := JString (utf16 "old");
              Gemini.isGenerating := false; Gemini.isSpeaking := false |} in
  let net : network :=
    fun _ _ => Ok {| ok := false; status := 429;
                     json_body := Ok (JObject []) |} in
  filter is_speak
    (calls (snd (run Gemini.handleSpeak
       (react_state (snd (run (Gemini.handleGenerate net) s)))))) = [].
Proof.
  intros s net.
  destruct (nothing_to_speak_after net s eq_refl eq_refl) as (Hf & _).
  - intros r [= <-]. reflexivity.
  - cbv zeta in Hf. rewrite Hf. reflexivity.
Defined.
